(** * Product proxy: the retrying fetch wrapper and the in-memory filter

    A shallow embedding of [getAll], [getById], [filterProducts] and the
    [GET /api/products/:id] handler of the Express server, with the
    ECMAScript operations those functions rely on. *)

From Stdlib Require Import List String Ascii ZArith NArith Bool Arith Lia.
From Stdlib Require Import DecimalString.
From Stdlib Require Import Floats.SpecFloat.
Import ListNotations.
Local Open Scope string_scope.
Local Open Scope list_scope.
Local Open Scope nat_scope.

(** ** Numbers

    A JS Number is an IEEE 754 binary64 value.  [spec_float] is the
    Standard Library's specification of such values (sign, mantissa,
    exponent; one NaN), and [SFcompare] is the IEEE comparison.  The
    Numbers are the values in canonical form ([valid_binary]), which is
    what [of_Z], [of_decimal] and the literals below produce. *)
Module Number.

Definition t := spec_float.

Definition prec : Z := 53.
Definition emax : Z := 1024.

Definition NaN : t := S754_nan.
Definition Infinity (neg : bool) : t := S754_infinity neg.
Definition zero : t := S754_zero false.

(** The Number nearest to the integer [z] (ties to even). *)
Definition of_Z (z : Z) : t := binary_normalize prec emax z 0 false.

(** The Number nearest to [m * 10^e], for a decimal literal with the
    digits [m] and the exponent [e]; [neg] is the literal's sign. *)
Definition of_decimal (neg : bool) (m : Z) (e : Z) : t :=
  match m with
  | Zpos p =>
      match e with
      | Zneg k => SFdiv prec emax (S754_finite neg p 0)
                                  (S754_finite false (Pos.pow 10 k) 0)
      | _ => binary_round prec emax neg (p * Z.to_pos (10 ^ e)) 0
      end
  | _ => S754_zero neg
  end.

Definition isNaN (x : t) : bool :=
  match x with S754_nan => true | _ => false end.

Definition isZero (x : t) : bool :=
  match x with S754_zero _ => true | _ => false end.

(** [Number::lessThan]: [None] stands for undefined (a NaN operand). *)
Definition lessThan (x y : t) : option bool :=
  match SFcompare x y with
  | Some Lt => Some true
  | Some _ => Some false
  | None => None
  end.

(** [Number::equal]. *)
Definition equal (x y : t) : bool := SFeqb x y.

(** IEEE [x <= y]. *)
Definition le (x y : t) : bool := SFleb x y.

End Number.

(** ** Strings

    A JS string is a sequence of UTF-16 code units.  The strings of this
    development are those whose code units lie in U+0000..U+00FF, one
    [ascii] per code unit. *)
Module JsString.

Definition code (c : ascii) : nat := nat_of_ascii c.

(** WhiteSpace and LineTerminator code units below U+0100: TAB, LF, VT,
    FF, CR, SP and NBSP. *)
Definition isWhiteSpace (c : ascii) : bool :=
  let n := code c in
  ((n =? 9) || (n =? 10) || (n =? 11) || (n =? 12) || (n =? 13)
   || (n =? 32) || (n =? 160))%nat.

Fixpoint trimStart (s : string) : string :=
  match s with
  | String c s' => if isWhiteSpace c then trimStart s' else s
  | EmptyString => EmptyString
  end.

Fixpoint trimEnd (s : string) : string :=
  match s with
  | String c s' =>
      match trimEnd s' with
      | EmptyString => if isWhiteSpace c then EmptyString else String c EmptyString
      | t => String c t
      end
  | EmptyString => EmptyString
  end.

(** [String.prototype.trim]. *)
Definition trim (s : string) : string := trimEnd (trimStart s).

(** Lower-case mapping of one code unit: A..Z, and the capital letters
    U+00C0..U+00DE other than the multiplication sign U+00D7. *)
Definition lowerChar (c : ascii) : ascii :=
  let n := code c in
  if (((65 <=? n) && (n <=? 90))
      || ((192 <=? n) && (n <=? 222) && negb (n =? 215)))%nat
  then ascii_of_nat (n + 32) else c.

(** [String.prototype.toLowerCase]. *)
Fixpoint toLowerCase (s : string) : string :=
  match s with
  | String c s' => String (lowerChar c) (toLowerCase s')
  | EmptyString => EmptyString
  end.

(** [String.prototype.includes] with position 0. *)
Fixpoint includes (s searchString : string) : bool :=
  if prefix searchString s then true
  else match s with
       | String _ s' => includes s' searchString
       | EmptyString => false
       end.

End JsString.

(** ** Numeric literals in strings

    [parseFloat] and [StringToNumber] (ECMAScript 19.2.4 and 7.1.4.1.1):
    both read the grammar [StrDecimalLiteral]; [parseFloat] takes the
    longest prefix that matches it, [StringToNumber] wants the whole
    string and also reads [0x], [0o] and [0b] integers. *)
Module NumericLiteral.

Definition digitValue (radix : Z) (c : ascii) : option Z :=
  let n := Z.of_nat (nat_of_ascii c) in
  let d := (if (48 <=? n) && (n <=? 57) then Some (n - 48)
            else if (97 <=? n) && (n <=? 102) then Some (n - 87)
            else if (65 <=? n) && (n <=? 70) then Some (n - 55)
            else None)%Z in
  match d with
  | Some v => if (v <? radix)%Z then Some v else None
  | None => None
  end.

(** The longest run of digits at the head of [s]: the value read so far
    (starting from [acc]), how many digits were read, and what follows. *)
Fixpoint digits (radix : Z) (s : string) (acc : Z) (count : nat)
  : Z * nat * string :=
  match s with
  | String c s' =>
      match digitValue radix c with
      | Some d => digits radix s' (radix * acc + d)%Z (S count)
      | None => (acc, count, s)
      end
  | EmptyString => (acc, count, s)
  end.

Definition stripPrefix (p s : string) : option string :=
  if prefix p s
  then Some (substring (String.length p) (String.length s - String.length p) s)
  else None.

(** [SignedInteger] after the sign. *)
Definition signedInteger (neg : bool) (s : string) : option (Z * string) :=
  let '(v, n, r) := digits 10 s 0 0 in
  match n with
  | O => None
  | S _ => Some (if neg then (- v)%Z else v, r)
  end.

(** [ExponentPart], when one is there: its value and what follows;
    otherwise exponent 0 and nothing consumed. *)
Definition exponentPart (s : string) : Z * string :=
  match s with
  | String c r =>
      if (c =? "e")%char || (c =? "E")%char then
        let e := match r with
                 | String "+" r' => signedInteger false r'
                 | String "-" r' => signedInteger true r'
                 | _ => signedInteger false r
                 end in
        match e with
        | Some (v, r') => (v, r')
        | None => (0%Z, s)
        end
      else (0%Z, s)
  | EmptyString => (0%Z, s)
  end.

(** The longest prefix of [s] that is a [StrUnsignedDecimalLiteral], as
    the Number it denotes under the sign [neg], and what follows it. *)
Definition strUnsignedDecimalLiteral (neg : bool) (s : string)
  : option (Number.t * string) :=
  match stripPrefix "Infinity" s with
  | Some r => Some (Number.Infinity neg, r)
  | None =>
      let '(i, ni, r1) := digits 10 s 0 0 in
      let '(m, nf, r2) := match r1 with
                          | String "." r => digits 10 r i 0
                          | _ => (i, O, r1)
                          end in
      match (ni + nf)%nat with
      | O => None
      | S _ =>
          let '(e, r3) := exponentPart r2 in
          Some (Number.of_decimal neg m (e - Z.of_nat nf)%Z, r3)
      end
  end.

Definition strDecimalLiteral (s : string) : option (Number.t * string) :=
  match s with
  | String "+" r => strUnsignedDecimalLiteral false r
  | String "-" r => strUnsignedDecimalLiteral true r
  | _ => strUnsignedDecimalLiteral false s
  end.

(** [NonDecimalIntegerLiteral]: [0x], [0o] or [0b] and at least one
    digit of that radix, up to the end of the string. *)
Definition nonDecimalIntegerLiteral (s : string) : option Number.t :=
  match s with
  | String "0" (String c r) =>
      let radix := if (c =? "x")%char || (c =? "X")%char then Some 16%Z
                   else if (c =? "o")%char || (c =? "O")%char then Some 8%Z
                   else if (c =? "b")%char || (c =? "B")%char then Some 2%Z
                   else None in
      match radix with
      | Some b =>
          match digits b r 0 0 with
          | (v, S _, EmptyString) => Some (Number.of_Z v)
          | _ => None
          end
      | None => None
      end
  | _ => None
  end.

(** [parseFloat] applied to a string. *)
Definition parseFloat (s : string) : Number.t :=
  match strDecimalLiteral (JsString.trimStart s) with
  | Some (n, _) => n
  | None => Number.NaN
  end.

(** [StringToNumber]. *)
Definition StringToNumber (s : string) : Number.t :=
  match JsString.trim s with
  | EmptyString => Number.zero
  | t =>
      match nonDecimalIntegerLiteral t with
      | Some n => n
      | None =>
          match strDecimalLiteral t with
          | Some (n, EmptyString) => n
          | _ => Number.NaN
          end
      end
  end.

End NumericLiteral.

(** ** Values, exceptions and operators *)

(** The primitive values a field of a parsed JSON record or of a query
    object holds; [VUndefined] is also what reading an absent field
    gives.  Fields that hold an array or an object are not part of this
    model. *)
Inductive value : Type :=
| VUndefined
| VNull
| VBool (b : bool)
| VNum (n : Number.t)
| VStr (s : string).

Inductive error : Type :=
| TypeError (message : string)
| SyntaxError (message : string)
| AbortError
| Error (message : string).

(** The completion of an evaluation: a value, or a thrown exception. *)
Inductive completion (A : Type) : Type :=
| Ok (a : A)
| Throw (e : error).

Arguments Ok {A} a.
Arguments Throw {A} e.

Definition bind {A B : Type} (r : completion A) (k : A -> completion B)
  : completion B :=
  match r with
  | Ok a => k a
  | Throw e => Throw e
  end.

Declare Scope js_scope.
Delimit Scope js_scope with js.
Notation "x <- c ;; k" := (bind c (fun x => k))
  (at level 100, c at next level, right associativity) : js_scope.
Local Open Scope js_scope.

Definition ToBoolean (v : value) : bool :=
  match v with
  | VUndefined | VNull => false
  | VBool b => b
  | VNum n => negb (Number.isZero n || Number.isNaN n)
  | VStr s => negb (s =? "")%string
  end.

Definition ToNumber (v : value) : Number.t :=
  match v with
  | VUndefined => Number.NaN
  | VNull => Number.zero
  | VBool b => if b then Number.of_Z 1 else Number.zero
  | VNum n => n
  | VStr s => NumericLiteral.StringToNumber s
  end.

(** [a || b]. *)
Definition or_else (a b : value) : value := if ToBoolean a then a else b.

(** [a ?? b]. *)
Definition coalesce (a b : value) : value :=
  match a with
  | VUndefined | VNull => b
  | _ => a
  end.

(** [a === b]. *)
Definition strictEquals (a b : value) : bool :=
  match a, b with
  | VUndefined, VUndefined => true
  | VNull, VNull => true
  | VBool x, VBool y => Bool.eqb x y
  | VNum x, VNum y => Number.equal x y
  | VStr x, VStr y => (x =? y)%string
  | _, _ => false
  end.

(** [a != null]. *)
Definition notNullish (a : value) : bool :=
  match a with
  | VUndefined | VNull => false
  | _ => true
  end.

(** [IsLessThan] on primitives: two strings compare by code units,
    anything else as Numbers; [None] is undefined. *)
Definition IsLessThan (x y : value) : option bool :=
  match x, y with
  | VStr a, VStr b => Some (String.ltb a b)
  | _, _ => Number.lessThan (ToNumber x) (ToNumber y)
  end.

(** [a >= b]. *)
Definition greaterEq (a b : value) : bool :=
  match IsLessThan a b with
  | Some false => true
  | _ => false
  end.

(** [a <= b]. *)
Definition lessEq (a b : value) : bool :=
  match IsLessThan b a with
  | Some false => true
  | _ => false
  end.

(** [parseFloat(v)]: [ToString(v)], then the literal prefix.  A Number
    prints as decimal digits that read back as the same Number, with
    [-0] printed as "0". *)
Definition parseFloat (v : value) : Number.t :=
  match v with
  | VStr s => NumericLiteral.parseFloat s
  | VNum n => if Number.isZero n then Number.zero else n
  | VBool b => NumericLiteral.parseFloat (if b then "true" else "false")
  | VNull => NumericLiteral.parseFloat "null"
  | VUndefined => NumericLiteral.parseFloat "undefined"
  end.

(** [isNaN(n)] of a Number. *)
Definition isNaN (n : Number.t) : bool := Number.isNaN n.

(** [v.trim()]: only a string has the method. *)
Definition call_trim (v : value) : completion string :=
  match v with
  | VStr s => Ok (JsString.trim s)
  | VUndefined | VNull => Throw (TypeError "Cannot read properties of null or undefined")
  | _ => Throw (TypeError "trim is not a function")
  end.

(** [v.toLowerCase()]. *)
Definition call_toLowerCase (v : value) : completion string :=
  match v with
  | VStr s => Ok (JsString.toLowerCase s)
  | VUndefined | VNull => Throw (TypeError "Cannot read properties of null or undefined")
  | _ => Throw (TypeError "toLowerCase is not a function")
  end.

(** [Array.prototype.filter]: the callback runs on every element in
    order, an exception it throws ends the call, and the kept elements
    go into a new array. *)
Fixpoint Array_filter {A : Type} (callback : A -> completion bool) (l : list A)
  : completion (list A) :=
  match l with
  | [] => Ok []
  | x :: l' =>
      keep <- callback x ;;
      rest <- Array_filter callback l' ;;
      Ok (if keep then x :: rest else rest)
  end.

(** ** Data model *)

(** A product record as the upstream sends it: the three fields the
    filter reads, and the rest of its fields (name and JSON text), which
    nothing here looks at. *)
Module Product.
Record t : Type := mk
  { title : value;
    slug : value;
    price : value;
    others : list (string * string) }.
End Product.

(** The query object of a request ([req.query]). *)
Module Query.
Record t : Type := mk
  { title : value;
    slug : value;
    minPrice : value;
    maxPrice : value }.
End Query.

(** ** The filter *)

Definition filterProducts (products : list Product.t) (query : Query.t)
  : completion (list Product.t) :=
  let result := products in
  (* title: includes *)
  byTitle <- (if ToBoolean (Query.title query)
              then t <- call_trim (Query.title query) ;; Ok (ToBoolean (VStr t))
              else Ok false) ;;
  result <- (if byTitle : bool then
               t <- call_trim (Query.title query) ;;
               let titleLower := JsString.toLowerCase t in
               Array_filter
                 (fun p =>
                    s <- call_toLowerCase (or_else (Product.title p) (VStr "")) ;;
                    Ok (JsString.includes s titleLower))
                 result
             else Ok result) ;;
  (* slug: equal *)
  bySlug <- (if ToBoolean (Query.slug query)
             then t <- call_trim (Query.slug query) ;; Ok (ToBoolean (VStr t))
             else Ok false) ;;
  result <- (if bySlug : bool then
               slugVal <- call_trim (Query.slug query) ;;
               Array_filter
                 (fun p =>
                    Ok (strictEquals (or_else (Product.slug p) (VStr ""))
                                     (VStr slugVal)))
                 result
             else Ok result) ;;
  (* minPrice: price >= minPrice *)
  result <- (if notNullish (Query.minPrice query)
                && negb (strictEquals (Query.minPrice query) (VStr ""))
             then
               let min := parseFloat (Query.minPrice query) in
               if negb (isNaN min) then
                 Array_filter
                   (fun p =>
                      Ok (greaterEq (coalesce (Product.price p) (VNum Number.zero))
                                    (VNum min)))
                   result
               else Ok result
             else Ok result) ;;
  (* maxPrice: price <= maxPrice *)
  result <- (if notNullish (Query.maxPrice query)
                && negb (strictEquals (Query.maxPrice query) (VStr ""))
             then
               let max := parseFloat (Query.maxPrice query) in
               if negb (isNaN max) then
                 Array_filter
                   (fun p =>
                      Ok (lessEq (coalesce (Product.price p) (VNum Number.zero))
                                 (VNum max)))
                   result
               else Ok result
             else Ok result) ;;
  Ok result.

(** ** Order-preserving selections *)

(** [Subseq r l]: [r] is [l] with some elements left out. *)
Inductive Subseq {A : Type} : list A -> list A -> Prop :=
| Subseq_nil : Subseq [] []
| Subseq_skip x r l : Subseq r l -> Subseq r (x :: l)
| Subseq_keep x r l : Subseq r l -> Subseq (x :: r) (x :: l).

#[local] Hint Constructors Subseq : core.

(** A pass is narrowing when its result is a selection of its input and
    it leaves every selection of one of its results as it is.  Each
    block of [filterProducts] is such a pass, and so is their sequence. *)
Definition narrowing {A : Type} (F : list A -> completion (list A)) : Prop :=
  forall l r, F l = Ok r ->
    Subseq r l /\ forall r', Subseq r' r -> F r' = Ok r'.

(** The four blocks of [filterProducts], each as a pass over [result]. *)
Definition titlePass (query : Query.t) (result : list Product.t)
  : completion (list Product.t) :=
  byTitle <- (if ToBoolean (Query.title query)
              then t <- call_trim (Query.title query) ;; Ok (ToBoolean (VStr t))
              else Ok false) ;;
  if byTitle : bool then
    t <- call_trim (Query.title query) ;;
    Array_filter
      (fun p =>
         s <- call_toLowerCase (or_else (Product.title p) (VStr "")) ;;
         Ok (JsString.includes s (JsString.toLowerCase t)))
      result
  else Ok result.

Definition slugPass (query : Query.t) (result : list Product.t)
  : completion (list Product.t) :=
  bySlug <- (if ToBoolean (Query.slug query)
             then t <- call_trim (Query.slug query) ;; Ok (ToBoolean (VStr t))
             else Ok false) ;;
  if bySlug : bool then
    slugVal <- call_trim (Query.slug query) ;;
    Array_filter
      (fun p =>
         Ok (strictEquals (or_else (Product.slug p) (VStr "")) (VStr slugVal)))
      result
  else Ok result.

Definition minPricePass (query : Query.t) (result : list Product.t)
  : completion (list Product.t) :=
  if notNullish (Query.minPrice query)
     && negb (strictEquals (Query.minPrice query) (VStr ""))
  then
    if negb (isNaN (parseFloat (Query.minPrice query))) then
      Array_filter
        (fun p =>
           Ok (greaterEq (coalesce (Product.price p) (VNum Number.zero))
                         (VNum (parseFloat (Query.minPrice query)))))
        result
    else Ok result
  else Ok result.

Definition maxPricePass (query : Query.t) (result : list Product.t)
  : completion (list Product.t) :=
  if notNullish (Query.maxPrice query)
     && negb (strictEquals (Query.maxPrice query) (VStr ""))
  then
    if negb (isNaN (parseFloat (Query.maxPrice query))) then
      Array_filter
        (fun p =>
           Ok (lessEq (coalesce (Product.price p) (VNum Number.zero))
                      (VNum (parseFloat (Query.maxPrice query)))))
        result
    else Ok result
  else Ok result.

(** ** The fetcher *)

Definition API_PRODUCTS : string := "https://api.escuelajs.co/api/v1/products".
Definition FETCH_TIMEOUT_MS : N := 15000.
Definition FETCH_RETRIES : nat := 2.

(** What [fetch] resolves with: the status line and what [json()] then
    gives, the parsed body or the exception of an unparsable one.  The
    body is of the shape the data model gives it: a list of records for
    the collection, one record for an item. *)
Module Response.
Record t (A : Type) : Type := mk
  { ok : bool;
    status : nat;
    statusText : string;
    json : completion A }.
Arguments mk {A}.
Arguments ok {A}.
Arguments status {A}.
Arguments statusText {A}.
Arguments json {A}.
End Response.

(** The upstream, as seen from the process: what the request to [url]
    comes to when [n] requests were made before it.  A rejected promise
    is a [Throw]: a network failure, or [AbortError] when the abort
    timer of [FETCH_TIMEOUT_MS] fires first. *)
Definition upstream (A : Type) : Type :=
  string -> nat -> completion (Response.t A).

Inductive line : Type :=
| GetAllError (attempt : nat) (e : error)
| Retrying
| GetByIdError (e : error).

(** The effects of the fetcher: requests sent, console lines (latest
    first) and the time spent waiting between attempts. *)
Record world : Type := mkWorld
  { requests : nat;
    console : list line;
    waited : N }.

(** The decimal digits of [n], as a template literal prints them. *)
Definition decimal (n : nat) : string :=
  NilZero.string_of_uint (Nat.to_uint n).

Definition idle : world := mkWorld 0 [] 0.

Definition fetch {A : Type} (up : upstream A) (url : string) (w : world)
  : completion (Response.t A) * world :=
  (up url (requests w), mkWorld (S (requests w)) (console w) (waited w)).

Definition print (l : line) (w : world) : world :=
  mkWorld (requests w) (l :: console w) (waited w).

Definition sleep (ms : N) (w : world) : world :=
  mkWorld (requests w) (console w) (waited w + ms)%N.

(** The body of the [for] loop of [getAll], over the values [attempt]
    still has to take. *)
Fixpoint getAll_loop (up : upstream (list Product.t)) (attempts : list nat)
  (w : world) : completion (list Product.t) * world :=
  match attempts with
  | [] => (Ok [], w)
  | attempt :: later =>
      let (fetched, w) := fetch up API_PRODUCTS w in
      let tried :=
        response <- fetched ;;
        if negb (Response.ok response)
        then Throw (Error ("HTTP " ++ decimal (Response.status response)
                                   ++ ": " ++ Response.statusText response)%string)
        else Response.json response in
      match tried with
      | Ok products => (Ok products, w)
      | Throw error =>
          let w := print (GetAllError attempt error) w in
          if (attempt <=? FETCH_RETRIES)%nat then
            let w := sleep 2000 (print Retrying w) in
            getAll_loop up later w
          else (Ok [], w)
      end
  end.

Definition getAll (up : upstream (list Product.t)) (w : world)
  : completion (list Product.t) * world :=
  getAll_loop up (seq 1 (FETCH_RETRIES + 1)) w.

(** [getById]; [None] is [null]. *)
Definition getById (up : upstream Product.t) (id : string) (w : world)
  : completion (option Product.t) * world :=
  let (fetched, w) := fetch up (API_PRODUCTS ++ "/" ++ id)%string w in
  let tried :=
    response <- fetched ;;
    if negb (Response.ok response) then Ok None
    else product <- Response.json response ;; Ok (Some product) in
  match tried with
  | Ok product => (Ok product, w)
  | Throw error => (Ok None, print (GetByIdError error) w)
  end.

(** What a handler sends back. *)
Inductive payload : Type :=
| JsonProduct (p : Product.t)
| JsonError (error : string).

Record reply : Type := mkReply { code : nat; body : payload }.

(** [app.get('/api/products/:id')]; [None] is a handler whose promise
    rejects. *)
Definition productById (up : upstream Product.t) (id : string) (w : world)
  : option reply * world :=
  let (got, w) := getById up id w in
  match got with
  | Ok product =>
      match product with
      | None => (Some (mkReply 404 (JsonError "Sản phẩm không tồn tại")), w)
      | Some p => (Some (mkReply 200 (JsonProduct p)), w)
      end
  | Throw _ => (None, w)
  end.

(** ** The filter over the object store

    [filterProducts] again, with the arrays and records where JS keeps
    them: in a store, behind references.  Spreading and filtering build
    new arrays; a callback reads the record an element refers to. *)
Module Store.

Definition loc : Type := nat.

Inductive cell : Type :=
| Arr (elements : list loc)
| Obj (p : Product.t).

(** The store: cell [a] is the object at reference [a]. *)
Definition heap : Type := list cell.

Definition read (h : heap) (a : loc) : option cell := nth_error h a.

Definition alloc (c : cell) (h : heap) : loc * heap :=
  (List.length h, h ++ [c]).

(** A computation on the store that may throw. *)
Definition run (A : Type) : Type := heap -> completion A * heap.

Definition ret {A : Type} (a : A) : run A := fun h => (Ok a, h).

Definition lift {A : Type} (c : completion A) : run A := fun h => (c, h).

Definition bind {A B : Type} (m : run A) (k : A -> run B) : run B :=
  fun h =>
    match m h with
    | (Ok a, h') => k a h'
    | (Throw e, h') => (Throw e, h')
    end.

Notation "x <-- c ;;; k" := (bind c (fun x => k))
  (at level 100, c at next level, right associativity).

Definition elements (h : heap) (a : loc) : completion (list loc) :=
  match read h a with
  | Some (Arr es) => Ok es
  | _ => Throw (TypeError "not iterable")
  end.

Definition record (h : heap) (a : loc) : completion Product.t :=
  match read h a with
  | Some (Obj p) => Ok p
  | _ => Throw (TypeError "not a record")
  end.

(** [[...arr]]: a new array with the elements of [arr]. *)
Definition spread (arr : loc) : run loc :=
  fun h =>
    match elements h arr with
    | Ok es => let (a, h') := alloc (Arr es) h in (Ok a, h')
    | Throw e => (Throw e, h)
    end.

Fixpoint select (h : heap) (callback : Product.t -> completion bool)
  (es : list loc) : completion (list loc) :=
  match es with
  | [] => Ok []
  | a :: es' =>
      (p <- record h a ;;
       keep <- callback p ;;
       rest <- select h callback es' ;;
       Ok (if keep : bool then a :: rest else rest))%js
  end.

(** [arr.filter(callback)]: a new array with the kept elements. *)
Definition filter (callback : Product.t -> completion bool) (arr : loc)
  : run loc :=
  fun h =>
    match (es <- elements h arr ;; select h callback es)%js with
    | Ok kept => let (a, h') := alloc (Arr kept) h in (Ok a, h')
    | Throw e => (Throw e, h)
    end.

Definition filterProducts (products : loc) (query : Query.t) : run loc :=
  result <-- spread products ;;;
  byTitle <-- lift (if ToBoolean (Query.title query)
                    then (t <- call_trim (Query.title query) ;;
                          Ok (ToBoolean (VStr t)))%js
                    else Ok false) ;;;
  result <-- (if byTitle : bool then
                t <-- lift (call_trim (Query.title query)) ;;;
                let titleLower := JsString.toLowerCase t in
                filter
                  (fun p =>
                     s <- call_toLowerCase (or_else (Product.title p) (VStr "")) ;;
                     Ok (JsString.includes s titleLower))%js
                  result
              else ret result) ;;;
  bySlug <-- lift (if ToBoolean (Query.slug query)
                   then (t <- call_trim (Query.slug query) ;;
                         Ok (ToBoolean (VStr t)))%js
                   else Ok false) ;;;
  result <-- (if bySlug : bool then
                slugVal <-- lift (call_trim (Query.slug query)) ;;;
                filter
                  (fun p =>
                     Ok (strictEquals (or_else (Product.slug p) (VStr ""))
                                      (VStr slugVal)))
                  result
              else ret result) ;;;
  result <-- (if notNullish (Query.minPrice query)
                 && negb (strictEquals (Query.minPrice query) (VStr ""))
              then
                let min := parseFloat (Query.minPrice query) in
                if negb (isNaN min) then
                  filter
                    (fun p =>
                       Ok (greaterEq (coalesce (Product.price p) (VNum Number.zero))
                                     (VNum min)))
                    result
                else ret result
              else ret result) ;;;
  result <-- (if notNullish (Query.maxPrice query)
                 && negb (strictEquals (Query.maxPrice query) (VStr ""))
              then
                let max := parseFloat (Query.maxPrice query) in
                if negb (isNaN max) then
                  filter
                    (fun p =>
                       Ok (lessEq (coalesce (Product.price p) (VNum Number.zero))
                                  (VNum max)))
                    result
                else ret result
              else ret result) ;;;
  ret result.

(** The records an array of the store holds, in order. *)
Fixpoint records (h : heap) (es : list loc) : completion (list Product.t) :=
  match es with
  | [] => Ok []
  | a :: es' =>
      (p <- record h a ;; ps <- records h es' ;; Ok (p :: ps))%js
  end.

(** Array [a] of [h] holds the records [l]. *)
Definition holds (h : heap) (a : loc) (l : list Product.t) : Prop :=
  exists es, read h a = Some (Arr es) /\ records h es = Ok l.

(** [h'] is [h] with new cells after it: every cell of [h] is in [h'],
    at its reference, as it was. *)
Definition extends (h h' : heap) : Prop := exists more, h' = h ++ more.

(** A computation that only allocates. *)
Definition allocates {A : Type} (m : run A) : Prop :=
  forall h, extends h (snd (m h)).

(** A computation whose result, run on a store of at least [n] cells,
    is a reference past the first [n]. *)
Definition returnsPast (n : nat) (m : run loc) : Prop :=
  forall h, n <= List.length h ->
            match m h with
            | (Ok a, _) => n <= a
            | (Throw _, _) => True
            end.

(** [m], given an array that holds [l], only allocates and ends as [P]
    does on [l]: with an array that holds the list [P] returns, or with
    the exception [P] throws. *)
Definition refines (m : loc -> run loc)
  (P : list Product.t -> completion (list Product.t)) : Prop :=
  forall h a l,
    holds h a l ->
    match m a h with
    | (Ok a', h') => extends h h' /\ exists l', P l = Ok l' /\ holds h' a' l'
    | (Throw e, h') => extends h h' /\ P l = Throw e
    end.

End Store.

(** ** Vocabulary of the statements *)

(** A field that is absent or holds a string. *)
Definition absentOrText (v : value) : Prop :=
  match v with
  | VUndefined | VStr _ => True
  | _ => False
  end.

(** A field that is absent or holds only white space. *)
Definition blank (v : value) : Prop :=
  match v with
  | VUndefined => True
  | VStr s => JsString.trim s = ""
  | _ => False
  end.

(** A record whose title is a string, or is missing ([undefined], or
    another value that counts as false). *)
Definition plainTitle (p : Product.t) : Prop :=
  match Product.title p with
  | VStr _ => True
  | v => ToBoolean v = false
  end.

(** The title of a record as text, the empty string when it has none. *)
Definition titleText (p : Product.t) : string :=
  match Product.title p with
  | VStr t => t
  | _ => ""
  end.

(** [needle] occurs in [text] when the case of letters is ignored. *)
Definition ciContains (text needle : string) : bool :=
  JsString.includes (JsString.toLowerCase text) (JsString.toLowerCase needle).

(** The price of a record as a Number, 0 when it has none. *)
Definition recordPrice (p : Product.t) : Number.t :=
  match Product.price p with
  | VUndefined | VNull => Number.zero
  | v => ToNumber v
  end.

(** The bound a price constraint stands for, if any: none when the field
    is absent, empty or not numeric. *)
Definition bound (v : value) : option Number.t :=
  match v with
  | VUndefined | VNull => None
  | VStr EmptyString => None
  | _ => if Number.isNaN (parseFloat v) then None else Some (parseFloat v)
  end.

(** [lo <= price of p <= hi], each bound only when there is one. *)
Definition inBounds (lo hi : option Number.t) (p : Product.t) : bool :=
  match lo with
  | Some m => Number.le m (recordPrice p)
  | None => true
  end
  && match hi with
     | Some m => Number.le (recordPrice p) m
     | None => true
     end.

(** A decimal digit. *)
Definition isDigit (c : ascii) : bool :=
  let n := JsString.code c in (48 <=? n) && (n <=? 57).

(** The text begins with an unsigned number: [Infinity], a digit, or a
    dot and a digit. *)
Definition startsUnsigned (s : string) : bool :=
  prefix "Infinity" s
  || match s with
     | String c r =>
         isDigit c
         || ((c =? ".")%char
             && match r with String d _ => isDigit d | EmptyString => false end)
     | EmptyString => false
     end.

(** The text begins, after leading white space, with a number: an
    optional sign, then an unsigned number.  What follows the number
    does not matter. *)
Definition hasNumericPrefix (s : string) : bool :=
  match JsString.trimStart s with
  | String c r =>
      if (c =? "+")%char || (c =? "-")%char then startsUnsigned r
      else startsUnsigned (String c r)
  | EmptyString => false
  end.

(** A constraint value that begins with a number: such a string, or a
    Number other than NaN. *)
Definition numericConstraint (v : value) : bool :=
  match v with
  | VStr s => hasNumericPrefix s
  | VNum n => negb (Number.isNaN n)
  | _ => false
  end.

(** An attempt fails: the request is rejected (the network, or the
    abort timer), the status is not 2xx, or the body does not parse. *)
Definition failed {A : Type} (o : completion (Response.t A)) : Prop :=
  match o with
  | Throw _ => True
  | Ok response =>
      Response.ok response = false \/ exists e, Response.json response = Throw e
  end.

(** An attempt succeeds with [payload]: a 2xx response whose body parses
    to it. *)
Definition succeeded {A : Type} (o : completion (Response.t A)) (payload : A) : Prop :=
  exists response,
    o = Ok response /\ Response.ok response = true
    /\ Response.json response = Ok payload.

(** The records of the examples. *)
Definition num (z : Z) : value := VNum (Number.of_Z z).
Definition shoe : Product.t := Product.mk (VStr "Shoe") (VStr "shoe-1") (num 10) [].
Definition hat : Product.t := Product.mk (VStr "Hat") (VStr "hat-1") (num 50) [].

(** Upstreams of the examples: one that is reached at the third
    attempt, one that never answers well, and a catalogue of one
    record. *)
Definition flaky : upstream (list Product.t) :=
  fun _ n =>
    match n with
    | 0 => Throw (TypeError "fetch failed")
    | 1 => Ok (Response.mk false 503 "Service Unavailable" (Ok []))
    | _ => Ok (Response.mk true 200 "OK" (Ok [shoe; hat]))
    end.

Definition down : upstream (list Product.t) :=
  fun _ n =>
    match n with
    | 0 => Throw AbortError
    | 1 => Ok (Response.mk false 500 "Internal Server Error" (Ok [shoe]))
    | _ => Ok (Response.mk true 200 "OK" (Throw (SyntaxError "Unexpected token <")))
    end.

Definition catalogue : upstream Product.t :=
  fun url _ =>
    if (url =? API_PRODUCTS ++ "/7")%string
    then Ok (Response.mk true 200 "OK" (Ok hat))
    else Ok (Response.mk false 400 "Bad Request" (Throw (SyntaxError "no body"))).

(** A store with the two records and, at reference 2, the array of
    both. *)
Definition shelf : Store.heap :=
  [Store.Obj shoe; Store.Obj hat; Store.Arr [0; 1]].

(** ** The list handlers *)

(** What a list handler sends back: [res.json(products)]. *)
Record listing : Type := mkListing { listingCode : nat; items : list Product.t }.

(** [app.get('/api/products')] of the dashboard server: the products as
    they were fetched; [None] is a handler whose promise rejects. *)
Definition allProducts (up : upstream (list Product.t)) (w : world)
  : option listing * world :=
  let (got, w) := getAll up w in
  match got with
  | Ok products => (Some (mkListing 200 products), w)
  | Throw _ => (None, w)
  end.

(** [app.get('/api/products')] of the product server: the products
    fetched, narrowed by [req.query]. *)
Definition listProducts (up : upstream (list Product.t)) (query : Query.t)
  (w : world) : option listing * world :=
  let (got, w) := getAll up w in
  match got with
  | Ok products =>
      match filterProducts products query with
      | Ok filtered => (Some (mkListing 200 filtered), w)
      | Throw _ => (None, w)
      end
  | Throw _ => (None, w)
  end.

(** ** Vocabulary of the further statements *)

(** The lines [getAll] prints for a failed attempt, and for a retry. *)
Definition errorLines (c : list line) : nat :=
  List.length
    (filter (fun l => match l with GetAllError _ _ => true | _ => false end) c).

Definition retryLines (c : list line) : nat :=
  List.length (filter (fun l => match l with Retrying => true | _ => false end) c).

(** A value that counts as true and is not a string: calling a string
    method on it throws. *)
Definition truthyNonText (v : value) : bool :=
  match v with
  | VStr _ => false
  | _ => ToBoolean v
  end.

(** A constraint that is in force: a string that is not blank. *)
Definition activeText (v : value) : bool :=
  match v with
  | VStr s => negb (JsString.trim s =? "")%string
  | _ => false
  end.

(** The query has a title constraint: a string that is not blank. *)
Definition titleActive (q : Query.t) : bool :=
  match Query.title q with
  | VStr s => negb (JsString.trim s =? "")%string
  | _ => false
  end.


(** A pass that judges every element on its own: it returns on a
    concatenation exactly when it returns on both parts, with the
    concatenation of the two results. *)
Definition additive {A : Type} (F : list A -> completion (list A)) : Prop :=
  forall l1 l2 r,
    F (l1 ++ l2) = Ok r <->
    exists r1 r2, F l1 = Ok r1 /\ F l2 = Ok r2 /\ r = r1 ++ r2.


(** A computation on an array of the store whose result is an array of
    references taken, in order, from that array. *)
Definition shares (m : Store.loc -> Store.run Store.loc) : Prop :=
  forall h a es,
    Store.read h a = Some (Store.Arr es) ->
    match m a h with
    | (Ok a', h') => exists es', Store.read h' a' = Some (Store.Arr es') /\ Subseq es' es
    | (Throw _, _) => True
    end.

(** * Properties *)

(** ** The model on examples *)

Example parseFloat_decimals :
  NumericLiteral.parseFloat "0.1" = S754_finite false 7205759403792794 (-56)
  /\ NumericLiteral.parseFloat "  12.5px" = S754_finite false 7036874417766400 (-49)
  /\ NumericLiteral.parseFloat "9007199254740993" = S754_finite false 4503599627370496 1
  /\ NumericLiteral.parseFloat "5e-324" = S754_finite false 1 (-1074)
  /\ NumericLiteral.parseFloat "1.7976931348623159e308" = S754_infinity false
  /\ NumericLiteral.parseFloat "-.5e1x" = S754_finite true 5629499534213120 (-50)
  /\ NumericLiteral.parseFloat "abc" = S754_nan
  /\ NumericLiteral.parseFloat "." = S754_nan.
Proof. vm_compute. repeat split. Qed.

Example StringToNumber_literals :
  NumericLiteral.StringToNumber " 0x1F " = Number.of_Z 31
  /\ NumericLiteral.StringToNumber "" = Number.zero
  /\ NumericLiteral.StringToNumber "12px" = Number.NaN
  /\ NumericLiteral.StringToNumber "1e3" = Number.of_Z 1000.
Proof. vm_compute. repeat split. Qed.

Example literals_canonical :
  valid_binary Number.prec Number.emax (NumericLiteral.parseFloat "0.1") = true
  /\ valid_binary Number.prec Number.emax (NumericLiteral.parseFloat "5e-324") = true
  /\ valid_binary Number.prec Number.emax (Number.of_Z 50) = true.
Proof. vm_compute. repeat split. Qed.

Example trim_and_lower :
  JsString.trim "  Red Shoe " = "Red Shoe"
  /\ JsString.toLowerCase "Red SHOE" = "red shoe"
  /\ JsString.includes "red shoe" "d s" = true
  /\ JsString.includes "red shoe" "ds" = false.
Proof. vm_compute. repeat split. Qed.

(** A title that is a Number has no [toLowerCase]: the callback throws
    and the exception leaves [filterProducts]. *)
Example filterProducts_numeric_title :
  filterProducts [Product.mk (num 5) VUndefined VUndefined []]
    (Query.mk (VStr "a") VUndefined VUndefined VUndefined)
  = Throw (TypeError "toLowerCase is not a function").
Proof. reflexivity. Qed.

(** ** Selections *)

Section SubseqFacts.
Context {A : Type}.
Implicit Types l r : list A.

Lemma Subseq_refl l : Subseq l l.
Proof. induction l; auto. Qed.

Lemma Subseq_nil_l l : Subseq [] l.
Proof. induction l; auto. Qed.

Lemma Subseq_trans r m l : Subseq r m -> Subseq m l -> Subseq r l.
Proof.
  intros Hrm Hml. revert r Hrm.
  induction Hml; intros r0 Hrm; auto.
  inversion Hrm; subst; auto.
Qed.

Lemma Subseq_In r l x : Subseq r l -> In x r -> In x l.
Proof.
  induction 1; simpl; intros Hin; auto.
  destruct Hin; auto.
Qed.

Lemma Subseq_Forall (P : A -> Prop) r l :
  Subseq r l -> Forall P l -> Forall P r.
Proof.
  induction 1; intros Hl; auto; inversion Hl; subst; auto.
Qed.

Lemma Subseq_length r l : Subseq r l -> List.length r <= List.length l.
Proof. induction 1; simpl; lia. Qed.

End SubseqFacts.

(** ** Facts about [Array_filter] *)

Section ArrayFilterFacts.
Context {A : Type}.
Implicit Types (f : A -> completion bool) (l r : list A).

Lemma Array_filter_pure (g : A -> bool) l :
  Array_filter (fun x => Ok (g x)) l = Ok (filter g l).
Proof.
  induction l as [|x l IH]; simpl; auto.
  rewrite IH. simpl. destruct (g x); reflexivity.
Qed.

Lemma Array_filter_Subseq f l r : Array_filter f l = Ok r -> Subseq r l.
Proof.
  revert r. induction l as [|x l IH]; simpl; intros r H.
  - inversion H. constructor.
  - destruct (f x) as [keep|]; simpl in H; try discriminate.
    destruct (Array_filter f l) as [rest|]; simpl in H; try discriminate.
    inversion H; subst. destruct keep; auto.
Qed.

Lemma Array_filter_kept f l r :
  Array_filter f l = Ok r -> Forall (fun x => f x = Ok true) r.
Proof.
  revert r. induction l as [|x l IH]; simpl; intros r H.
  - inversion H. constructor.
  - destruct (f x) as [keep|] eqn:Hx; simpl in H; try discriminate.
    destruct (Array_filter f l) as [rest|]; simpl in H; try discriminate.
    inversion H; subst. destruct keep; auto.
Qed.

Lemma Array_filter_all_kept f l :
  Forall (fun x => f x = Ok true) l -> Array_filter f l = Ok l.
Proof.
  induction 1 as [|x l Hx _ IH]; simpl; auto.
  rewrite Hx, IH. reflexivity.
Qed.

Lemma Array_filter_total f l :
  Forall (fun x => exists b, f x = Ok b) l -> exists r, Array_filter f l = Ok r.
Proof.
  induction 1 as [|x l [b Hx] _ [r IH]]; simpl; eauto.
  rewrite Hx, IH. simpl. eauto.
Qed.
End ArrayFilterFacts.

(** ** Narrowing passes *)

Section Narrowing.
Context {A : Type}.
Implicit Types (F G : list A -> completion (list A)).

Lemma narrowing_filter (f : A -> completion bool) : narrowing (Array_filter f).
Proof.
  intros l r H. split.
  - eapply Array_filter_Subseq; eauto.
  - intros r' Hr'. apply Array_filter_all_kept.
    eapply Subseq_Forall; eauto. eapply Array_filter_kept; eauto.
Qed.

Lemma narrowing_id : narrowing (fun l : list A => Ok l).
Proof.
  intros l r H. inversion H; subst. split; auto using Subseq_refl.
Qed.

Lemma narrowing_seq F G :
  narrowing F -> narrowing G -> narrowing (fun l => bind (F l) G).
Proof.
  intros HF HG l r H.
  destruct (F l) as [m|] eqn:Hm; simpl in H; try discriminate.
  destruct (HF _ _ Hm) as [Hml HmF]. destruct (HG _ _ H) as [Hrm HrG].
  split.
  - eapply Subseq_trans; eauto.
  - intros r' Hr'. rewrite (HmF r') by (eapply Subseq_trans; eauto).
    simpl. auto.
Qed.

Lemma narrowing_guard {B : Type} (c : completion B)
  (F : B -> list A -> completion (list A)) :
  (forall b, narrowing (F b)) -> narrowing (fun l => bind c (fun b => F b l)).
Proof.
  intros HF l r H. destruct c as [b|]; simpl in *; try discriminate.
  apply (HF b); auto.
Qed.

Lemma narrowing_if (c : bool) F G :
  narrowing F -> narrowing G -> narrowing (fun l => if c then F l else G l).
Proof. destruct c; auto. Qed.

Lemma narrowing_ext F G :
  (forall l, F l = G l) -> narrowing G -> narrowing F.
Proof.
  intros E HG l r H. rewrite E in H. destruct (HG _ _ H) as [H1 H2].
  split; auto. intros r' Hr'. rewrite E. auto.
Qed.
End Narrowing.

Lemma bind_assoc {A B C : Type} (r : completion A)
  (f : A -> completion B) (g : B -> completion C) :
  bind (bind r f) g = bind r (fun a => bind (f a) g).
Proof. destruct r; reflexivity. Qed.

Lemma bind_ret {A : Type} (r : completion A) : bind r Ok = r.
Proof. destruct r; reflexivity. Qed.

Lemma filterProducts_passes products query :
  filterProducts products query =
  (r1 <- titlePass query products ;;
   r2 <- slugPass query r1 ;;
   r3 <- minPricePass query r2 ;;
   maxPricePass query r3).
Proof.
  unfold filterProducts, titlePass, slugPass, minPricePass, maxPricePass.
  cbv zeta.
  rewrite !bind_assoc.
  repeat match goal with
         | |- bind ?c _ = bind ?c _ => destruct c; simpl; [|reflexivity]
         | |- bind (bind _ _) _ = _ => rewrite !bind_assoc
         | |- _ = bind (bind _ _) _ => rewrite !bind_assoc
         end.
  apply bind_ret.
Qed.


(** ** The passes of the filter *)

Lemma titlePass_narrowing query : narrowing (titlePass query).
Proof.
  unfold titlePass. apply narrowing_guard. intros byTitle.
  apply narrowing_if.
  - apply narrowing_guard. intros t. apply narrowing_filter.
  - apply narrowing_id.
Qed.

Lemma slugPass_narrowing query : narrowing (slugPass query).
Proof.
  unfold slugPass. apply narrowing_guard. intros bySlug.
  apply narrowing_if.
  - apply narrowing_guard. intros t. apply narrowing_filter.
  - apply narrowing_id.
Qed.

Lemma minPricePass_narrowing query : narrowing (minPricePass query).
Proof.
  unfold minPricePass. apply narrowing_if; [apply narrowing_if|];
    auto using narrowing_filter, narrowing_id.
Qed.

Lemma maxPricePass_narrowing query : narrowing (maxPricePass query).
Proof.
  unfold maxPricePass. apply narrowing_if; [apply narrowing_if|];
    auto using narrowing_filter, narrowing_id.
Qed.

Lemma filterProducts_narrowing query :
  narrowing (fun products => filterProducts products query).
Proof.
  eapply narrowing_ext; [intros l; apply filterProducts_passes|].
  apply narrowing_seq; [apply titlePass_narrowing|].
  apply narrowing_seq; [apply slugPass_narrowing|].
  apply narrowing_seq; [apply minPricePass_narrowing|].
  apply maxPricePass_narrowing.
Qed.

(** ** Strings *)

Lemma trimStart_head s c s' :
  JsString.trimStart s = String c s' -> JsString.isWhiteSpace c = false.
Proof.
  induction s as [|a s IH]; simpl; intros H; [discriminate|].
  destruct (JsString.isWhiteSpace a) eqn:Ha; auto.
  inversion H; subst; assumption.
Qed.

Lemma trim_empty_trimStart s :
  JsString.trim s = "" -> JsString.trimStart s = "".
Proof.
  unfold JsString.trim. intros H.
  destruct (JsString.trimStart s) as [|c s'] eqn:E; auto.
  apply trimStart_head in E. simpl in H.
  destruct (JsString.trimEnd s'); [rewrite E in H|]; discriminate.
Qed.

Lemma parseFloat_blank s :
  JsString.trim s = "" -> NumericLiteral.parseFloat s = Number.NaN.
Proof.
  intros H. unfold NumericLiteral.parseFloat.
  rewrite (trim_empty_trimStart _ H). reflexivity.
Qed.

Lemma prefix_app p s : prefix p s = true <-> exists post, s = (p ++ post)%string.
Proof.
  revert s. induction p as [|a p IH]; intros s.
  - destruct s; simpl; split; eauto.
  - destruct s as [|b s]; simpl.
    + split; [discriminate|intros [post H]; discriminate].
    + destruct (Ascii.ascii_dec a b) as [->|Hab].
      * rewrite IH. split; intros [post H]; exists post.
        -- now rewrite H.
        -- now inversion H.
      * split; [discriminate|]. intros [post H]. congruence.
Qed.

Lemma includes_unfold s needle :
  JsString.includes s needle =
  if prefix needle s then true
  else match s with
       | String _ s' => JsString.includes s' needle
       | EmptyString => false
       end.
Proof. destruct s; reflexivity. Qed.

Lemma includes_substring s needle :
  JsString.includes s needle = true <->
  exists pre post, s = (pre ++ needle ++ post)%string.
Proof.
  induction s as [|a s IH]; rewrite includes_unfold;
    destruct (prefix needle _) eqn:Hp.
  - apply prefix_app in Hp. destruct Hp as [post Hp].
    split; auto. intros _. exists "", post. exact Hp.
  - split; [discriminate|]. intros (pre & post & H).
    destruct pre; simpl in H; [|discriminate].
    assert (prefix needle "" = true) by (apply prefix_app; eauto).
    congruence.
  - apply prefix_app in Hp. destruct Hp as [post Hp].
    split; auto. intros _. exists "", post. exact Hp.
  - rewrite IH. split.
    + intros (pre & post & H). exists (String a pre), post. simpl. now rewrite H.
    + intros (pre & post & H). destruct pre as [|b pre]; simpl in H.
      * assert (prefix needle (String a s) = true) by (apply prefix_app; eauto).
        congruence.
      * inversion H. eauto.
Qed.

(** ** Passes that do nothing *)

Lemma titlePass_blank query l : blank (Query.title query) -> titlePass query l = Ok l.
Proof.
  unfold titlePass, blank. destruct (Query.title query) as [| | | |s]; simpl; try tauto.
  intros H. destruct (negb (s =? "")%string); simpl; auto.
  rewrite H. reflexivity.
Qed.

Lemma slugPass_blank query l : blank (Query.slug query) -> slugPass query l = Ok l.
Proof.
  unfold slugPass, blank. destruct (Query.slug query) as [| | | |s]; simpl; try tauto.
  intros H. destruct (negb (s =? "")%string); simpl; auto.
  rewrite H. reflexivity.
Qed.

Lemma minPricePass_notNumeric query l :
  Number.isNaN (parseFloat (Query.minPrice query)) = true ->
  minPricePass query l = Ok l.
Proof.
  unfold minPricePass, isNaN. intros ->. simpl.
  destruct (_ && _); reflexivity.
Qed.

Lemma maxPricePass_notNumeric query l :
  Number.isNaN (parseFloat (Query.maxPrice query)) = true ->
  maxPricePass query l = Ok l.
Proof.
  unfold maxPricePass, isNaN. intros ->. simpl.
  destruct (_ && _); reflexivity.
Qed.

Lemma blank_notNumeric v :
  blank v -> v = VUndefined \/ Number.isNaN (parseFloat v) = true.
Proof.
  destruct v as [| | | |s]; simpl; try tauto.
  intros H. right. rewrite (parseFloat_blank _ H). reflexivity.
Qed.

Lemma minPricePass_blank query l : blank (Query.minPrice query) -> minPricePass query l = Ok l.
Proof.
  intros H. destruct (blank_notNumeric _ H) as [E|E].
  - unfold minPricePass. rewrite E. reflexivity.
  - apply minPricePass_notNumeric, E.
Qed.

Lemma maxPricePass_blank query l : blank (Query.maxPrice query) -> maxPricePass query l = Ok l.
Proof.
  intros H. destruct (blank_notNumeric _ H) as [E|E].
  - unfold maxPricePass. rewrite E. reflexivity.
  - apply maxPricePass_notNumeric, E.
Qed.

(** ** The filter completes *)

Lemma guard_text v :
  absentOrText v ->
  exists b, (if ToBoolean v
             then t <- call_trim v ;; Ok (ToBoolean (VStr t))
             else Ok false) = Ok b
            /\ (b = true -> exists s, v = VStr s).
Proof.
  destruct v as [| | | |s]; simpl; try tauto; intros _.
  - exists false. split; [reflexivity|discriminate].
  - destruct (negb (s =? "")%string); eexists; split; eauto.
Qed.

Lemma titleCallback_plain p needle :
  plainTitle p ->
  (s <- call_toLowerCase (or_else (Product.title p) (VStr "")) ;;
   Ok (JsString.includes s (JsString.toLowerCase needle)))
  = Ok (ciContains (titleText p) needle).
Proof.
  unfold plainTitle, titleText, ciContains, or_else.
  destruct (Product.title p) as [| |b|n|t]; simpl; try reflexivity.
  - intros ->. reflexivity.
  - intros ->. reflexivity.
  - intros _. destruct t; reflexivity.
Qed.

Lemma titlePass_completes query l :
  absentOrText (Query.title query) -> Forall plainTitle l ->
  exists r, titlePass query l = Ok r.
Proof.
  intros Hq Hl. unfold titlePass.
  destruct (guard_text _ Hq) as (b & -> & Hb). simpl.
  destruct b; eauto.
  destruct Hb as [s ->]; auto. simpl.
  apply Array_filter_total.
  eapply Forall_impl; [|exact Hl]. intros p Hp. simpl in Hp.
  rewrite (titleCallback_plain p (JsString.trim s) Hp). eauto.
Qed.

Lemma slugPass_completes query l :
  absentOrText (Query.slug query) -> exists r, slugPass query l = Ok r.
Proof.
  intros Hq. unfold slugPass.
  destruct (guard_text _ Hq) as (b & -> & Hb). simpl.
  destruct b; eauto.
  destruct Hb as [s ->]; auto. simpl.
  rewrite Array_filter_pure. eauto.
Qed.

Lemma minPricePass_completes query l : exists r, minPricePass query l = Ok r.
Proof.
  unfold minPricePass.
  destruct (_ && _); eauto. destruct (negb _); eauto.
  rewrite Array_filter_pure. eauto.
Qed.

Lemma maxPricePass_completes query l : exists r, maxPricePass query l = Ok r.
Proof.
  unfold maxPricePass.
  destruct (_ && _); eauto. destruct (negb _); eauto.
  rewrite Array_filter_pure. eauto.
Qed.

Lemma filterProducts_completes l query :
  Forall plainTitle l ->
  absentOrText (Query.title query) -> absentOrText (Query.slug query) ->
  exists r, filterProducts l query = Ok r.
Proof.
  intros Hl Ht Hs. rewrite filterProducts_passes.
  destruct (titlePass_completes query l Ht Hl) as [r1 ->]. simpl.
  destruct (slugPass_completes query r1 Hs) as [r2 ->]. simpl.
  destruct (minPricePass_completes query r2) as [r3 ->]. simpl.
  apply maxPricePass_completes.
Qed.

(** ** Comparisons of Numbers *)

Lemma SFcompare_swap x y :
  SFcompare y x = option_map CompOpp (SFcompare x y).
Proof.
  destruct x as [sx|sx| |sx mx ex], y as [sy|sy| |sy my ey]; simpl;
    try reflexivity;
    try (destruct sx; reflexivity); try (destruct sy; reflexivity);
    try (destruct sx, sy; reflexivity).
  destruct sx, sy; simpl; try reflexivity;
    rewrite (Z.compare_antisym ex ey); destruct (ex ?= ey)%Z; simpl;
    try reflexivity; repeat f_equal; exact (Pos.compare_antisym mx my).
Qed.

Lemma greaterEq_le v m : greaterEq v (VNum m) = Number.le m (ToNumber v).
Proof.
  unfold greaterEq, Number.le, SFleb.
  replace (IsLessThan v (VNum m)) with (Number.lessThan (ToNumber v) m)
    by (destruct v; reflexivity).
  unfold Number.lessThan. rewrite (SFcompare_swap (ToNumber v) m).
  destruct (SFcompare (ToNumber v) m) as [[]|]; reflexivity.
Qed.

Lemma lessEq_le v m : lessEq v (VNum m) = Number.le (ToNumber v) m.
Proof.
  unfold lessEq, Number.le, SFleb.
  replace (IsLessThan (VNum m) v) with (Number.lessThan m (ToNumber v))
    by (destruct v; reflexivity).
  unfold Number.lessThan. rewrite (SFcompare_swap (ToNumber v) m).
  destruct (SFcompare (ToNumber v) m) as [[]|]; reflexivity.
Qed.

Lemma price_or_zero p :
  ToNumber (coalesce (Product.price p) (VNum Number.zero)) = recordPrice p.
Proof. unfold recordPrice. destruct (Product.price p); reflexivity. Qed.

(** ** What each pass keeps *)

Lemma filter_all {A : Type} (l : list A) : filter (fun _ => true) l = l.
Proof. induction l; simpl; congruence. Qed.

Lemma filter_both {A : Type} (f g : A -> bool) (l : list A) :
  filter g (filter f l) = filter (fun x => f x && g x) l.
Proof.
  induction l as [|x l IH]; simpl; auto.
  destruct (f x); simpl; [destruct (g x)|]; congruence.
Qed.

Lemma Array_filter_agrees {A : Type} (f : A -> completion bool) (g : A -> bool) l :
  Forall (fun x => f x = Ok (g x)) l -> Array_filter f l = Ok (filter g l).
Proof.
  induction 1 as [|x l Hx _ IH]; simpl; auto.
  rewrite Hx, IH. simpl. destruct (g x); reflexivity.
Qed.

Lemma minPricePass_bound query l :
  minPricePass query l =
  Ok (filter (fun p => match bound (Query.minPrice query) with
                       | Some m => Number.le m (recordPrice p)
                       | None => true
                       end) l).
Proof.
  unfold minPricePass, bound, isNaN.
  destruct (Query.minPrice query) as [| |b|n|s]; simpl;
    try (now rewrite filter_all);
    try (destruct s; simpl; try (now rewrite filter_all));
    match goal with
    | |- context [Number.isNaN ?x] =>
        destruct (Number.isNaN x); simpl; try (now rewrite filter_all)
    end;
    rewrite Array_filter_pure; f_equal; apply filter_ext; intros p;
    rewrite greaterEq_le, price_or_zero; reflexivity.
Qed.

Lemma maxPricePass_bound query l :
  maxPricePass query l =
  Ok (filter (fun p => match bound (Query.maxPrice query) with
                       | Some m => Number.le (recordPrice p) m
                       | None => true
                       end) l).
Proof.
  unfold maxPricePass, bound, isNaN.
  destruct (Query.maxPrice query) as [| |b|n|s]; simpl;
    try (now rewrite filter_all);
    try (destruct s; simpl; try (now rewrite filter_all));
    match goal with
    | |- context [Number.isNaN ?x] =>
        destruct (Number.isNaN x); simpl; try (now rewrite filter_all)
    end;
    rewrite Array_filter_pure; f_equal; apply filter_ext; intros p;
    rewrite lessEq_le, price_or_zero; reflexivity.
Qed.

Lemma trim_nonempty s : JsString.trim s <> "" -> s <> "".
Proof. intros H ->. apply H. reflexivity. Qed.

Lemma titlePass_text query l s :
  Query.title query = VStr s -> JsString.trim s <> "" -> Forall plainTitle l ->
  titlePass query l =
  Ok (filter (fun p => ciContains (titleText p) (JsString.trim s)) l).
Proof.
  intros Hq Hs Hl. unfold titlePass. rewrite Hq. simpl.
  destruct (s =? "")%string eqn:E.
  - apply String.eqb_eq in E. now apply trim_nonempty in Hs.
  - simpl. destruct (JsString.trim s =? "")%string eqn:E'.
    + apply String.eqb_eq in E'. contradiction.
    + simpl. apply Array_filter_agrees.
      eapply Forall_impl; [|exact Hl]. intros p Hp.
      apply titleCallback_plain, Hp.
Qed.

(** * The filter: stated properties *)

(** C2. The price constraints are inclusive bounds on the price of each
    record: [filterProducts] with a query is [filterProducts] without
    its [minPrice] and [maxPrice], followed by keeping exactly the
    records [p] with [minPrice <= price p <= maxPrice] (IEEE order, each
    bound only when the field is numeric).  A missing price counts as
    0, a Number as itself.  For Shoe (10) and Hat (50) and
    [{minPrice: 20}], as a Number or as the text of a query string, the
    result is Hat alone. *)
Theorem filterProducts_price_bounds :
  (forall l q,
      filterProducts l q =
      (r <- filterProducts l
              (Query.mk (Query.title q) (Query.slug q) VUndefined VUndefined) ;;
       Ok (filter (inBounds (bound (Query.minPrice q)) (bound (Query.maxPrice q))) r)))
  /\ (forall p, Product.price p = VUndefined -> recordPrice p = Number.zero)
  /\ (forall p n, Product.price p = VNum n -> recordPrice p = n)
  /\ filterProducts [shoe; hat] (Query.mk VUndefined VUndefined (num 20) VUndefined)
     = Ok [hat]
  /\ filterProducts [shoe; hat] (Query.mk VUndefined VUndefined (VStr "20") VUndefined)
     = Ok [hat].
Proof.
  split; [|split; [|split; [|split]]].
  - intros l q. rewrite !filterProducts_passes.
    change (titlePass (Query.mk _ _ _ _) l) with (titlePass q l).
    destruct (titlePass q l) as [r1|]; simpl; [|reflexivity].
    change (slugPass (Query.mk _ _ _ _) r1) with (slugPass q r1).
    destruct (slugPass q r1) as [r2|]; simpl; [|reflexivity].
    rewrite minPricePass_bound. simpl. rewrite maxPricePass_bound.
    unfold inBounds. now rewrite filter_both.
  - unfold recordPrice. now intros p ->.
  - unfold recordPrice. now intros p n ->.
  - vm_compute. reflexivity.
  - vm_compute. reflexivity.
Qed.

Lemma filterProducts_price_bounds_witness :
  Product.price (Product.mk (VStr "Cap") VUndefined VUndefined []) = VUndefined
  /\ recordPrice (Product.mk (VStr "Cap") VUndefined VUndefined []) = Number.zero
  /\ Product.price hat = num 50
  /\ recordPrice hat = Number.of_Z 50.
Proof.
  split; [reflexivity|].
  split; [apply (proj1 (proj2 filterProducts_price_bounds)); reflexivity|].
  split; [reflexivity|].
  apply (proj1 (proj2 (proj2 filterProducts_price_bounds))). reflexivity.
Defined.

(** C3. With every field of the query absent or blank, [filterProducts]
    returns its input list, same records in the same order. *)
Theorem filterProducts_blank_identity (l : list Product.t) (q : Query.t) :
  blank (Query.title q) -> blank (Query.slug q) ->
  blank (Query.minPrice q) -> blank (Query.maxPrice q) ->
  filterProducts l q = Ok l.
Proof.
  intros Ht Hs Hmin Hmax. rewrite filterProducts_passes.
  rewrite titlePass_blank by assumption. simpl.
  rewrite slugPass_blank by assumption. simpl.
  rewrite minPricePass_blank by assumption. simpl.
  now apply maxPricePass_blank.
Qed.

Lemma filterProducts_blank_identity_witness :
  filterProducts [shoe; hat] (Query.mk (VStr "  ") (VStr "") VUndefined (VStr " "))
  = Ok [shoe; hat].
Proof.
  apply (filterProducts_blank_identity [shoe; hat]
           (Query.mk (VStr "  ") (VStr "") VUndefined (VStr " "))).
  - reflexivity.
  - reflexivity.
  - exact I.
  - reflexivity.
Defined.

(** C4. [filterProducts] is idempotent: filtering its result again with
    the same query gives that result (and when the first call throws,
    so does the sequence). *)
Theorem filterProducts_idempotent (l : list Product.t) (q : Query.t) :
  (r <- filterProducts l q ;; filterProducts r q) = filterProducts l q.
Proof.
  destruct (filterProducts l q) as [r|e] eqn:H; simpl; [|reflexivity].
  destruct (filterProducts_narrowing q l r H) as [_ Hr].
  apply Hr, Subseq_refl.
Qed.

(** C5, as the code has it.  On records whose title is text or missing,
    a title constraint that is not blank keeps exactly the records whose
    title (the empty string when missing) contains the constraint with
    the white space around it removed, the case of letters ignored; the
    other constraints then apply to those records.  [ciContains] is the
    substring relation on the lower-cased strings.  In particular
    [{title: "SHO"}] keeps the record titled "Shoe". *)
Theorem filterProducts_title_trimmed :
  (forall l q s,
      Query.title q = VStr s -> JsString.trim s <> "" -> Forall plainTitle l ->
      filterProducts l q =
      filterProducts
        (filter (fun p => ciContains (titleText p) (JsString.trim s)) l)
        (Query.mk VUndefined (Query.slug q) (Query.minPrice q) (Query.maxPrice q)))
  /\ (forall text needle,
         ciContains text needle = true <->
         exists pre post,
           JsString.toLowerCase text
           = (pre ++ JsString.toLowerCase needle ++ post)%string)
  /\ (forall p, Product.title p = VUndefined -> titleText p = "")
  /\ filterProducts [shoe; hat]
       (Query.mk (VStr "SHO") VUndefined VUndefined VUndefined)
     = Ok [shoe].
Proof.
  split; [|split; [|split]].
  - intros l q s Hq Hs Hl. rewrite !filterProducts_passes.
    rewrite (titlePass_text q l s Hq Hs Hl). reflexivity.
  - intros text needle. apply includes_substring.
  - unfold titleText. now intros p ->.
  - reflexivity.
Qed.

Lemma filterProducts_title_trimmed_witness :
  Query.title (Query.mk (VStr " sho ") (VStr "shoe-1") VUndefined VUndefined)
  = VStr " sho "
  /\ JsString.trim " sho " <> ""
  /\ Forall plainTitle [shoe; hat]
  /\ filterProducts [shoe; hat]
       (Query.mk (VStr " sho ") (VStr "shoe-1") VUndefined VUndefined)
     = filterProducts [shoe]
         (Query.mk VUndefined (VStr "shoe-1") VUndefined VUndefined).
Proof.
  split; [reflexivity|]. split; [discriminate|].
  split; [repeat constructor|].
  apply (proj1 filterProducts_title_trimmed [shoe; hat]
           (Query.mk (VStr " sho ") (VStr "shoe-1") VUndefined VUndefined)
           " sho ").
  - reflexivity.
  - discriminate.
  - repeat constructor.
Defined.

(** C5, as stated, fails: with the constraint " sho" the record titled
    "Shoe" is kept, though "shoe" does not contain " sho". *)
Lemma filterProducts_title_untrimmed_counterexample :
  filterProducts [shoe] (Query.mk (VStr " sho") VUndefined VUndefined VUndefined)
  = Ok [shoe]
  /\ ciContains (titleText shoe) " sho" = false
  /\ filterProducts [shoe] (Query.mk (VStr " sho") VUndefined VUndefined VUndefined)
     <> Ok (filter (fun p => ciContains (titleText p) " sho") [shoe]).
Proof.
  split; [reflexivity|]. split; [reflexivity|]. discriminate.
Qed.

(** ** Which constraint values are numbers *)

Section NotNaN.
Variables prec emax : Z.

Lemma shr_1_nonneg mrs : (0 <= shr_m mrs)%Z -> (0 <= shr_m (shr_1 mrs))%Z.
Proof.
  destruct mrs as [m r s]. destruct m as [|[p|p|]|[p|p|]]; simpl; lia.
Qed.

Lemma iter_pos_keeps {A : Type} (P : A -> Prop) (f : A -> A) :
  (forall x, P x -> P (f x)) -> forall p x, P x -> P (iter_pos f p x).
Proof.
  intros Hf. induction p as [p IH|p IH|]; simpl; intros x Hx; auto.
Qed.

Lemma shr_fexp_nonneg m e l :
  (0 <= m)%Z -> (0 <= shr_m (fst (shr_fexp prec emax m e l)))%Z.
Proof.
  intros Hm. unfold shr_fexp, shr.
  assert (H0 : (0 <= shr_m (shr_record_of_loc m l))%Z)
    by (destruct l as [|[]]; exact Hm).
  destruct (_ - e)%Z; simpl; auto.
  apply (iter_pos_keeps (fun mrs => (0 <= shr_m mrs)%Z)); auto using shr_1_nonneg.
Qed.

Lemma round_nearest_even_nonneg m l :
  (0 <= m)%Z -> (0 <= round_nearest_even m l)%Z.
Proof.
  intros Hm. destruct l as [|[]]; simpl; try lia. destruct (Z.even m); lia.
Qed.

Lemma binary_round_aux_not_nan sx mx ex lx :
  (0 <= mx)%Z -> binary_round_aux prec emax sx mx ex lx <> S754_nan.
Proof.
  intros Hm. unfold binary_round_aux.
  pose proof (shr_fexp_nonneg mx ex lx Hm) as H1.
  destruct (shr_fexp prec emax mx ex lx) as [mrs' e']. simpl in H1.
  pose proof (shr_fexp_nonneg _ e' loc_Exact
                (round_nearest_even_nonneg _ (loc_of_shr_record mrs') H1)) as H2.
  destruct (shr_fexp prec emax _ e' loc_Exact) as [mrs'' e'']. simpl in H2.
  destruct (shr_m mrs''); try discriminate; try lia.
  destruct (_ <=? _)%Z; discriminate.
Qed.

Lemma SFdiv_core_nonneg p e1 q e2 :
  (0 <= fst (fst (SFdiv_core_binary prec emax (Zpos p) e1 (Zpos q) e2)))%Z.
Proof.
  unfold SFdiv_core_binary.
  set (m' := match (_ - _ - _)%Z with Z0 => _ | Zpos _ => _ | Zneg _ => _ end).
  assert (Hm : (0 <= m')%Z).
  { subst m'. destruct (_ - _ - _)%Z; try lia. apply Z.shiftl_nonneg. lia. }
  pose proof (Z_div_mod m' (Zpos q) ltac:(lia)) as H.
  destruct (Z.div_eucl m' (Zpos q)) as [d r]. simpl. nia.
Qed.
End NotNaN.

Lemma of_decimal_not_NaN neg m e : Number.isNaN (Number.of_decimal neg m e) = false.
Proof.
  assert (H : Number.of_decimal neg m e <> S754_nan).
  { unfold Number.of_decimal. destruct m as [|p|p]; try discriminate.
    destruct e as [|k|k].
    - unfold binary_round. destruct (shl_align _ _ _) as [mz ez].
      apply binary_round_aux_not_nan. lia.
    - unfold binary_round. destruct (shl_align _ _ _) as [mz ez].
      apply binary_round_aux_not_nan. lia.
    - unfold SFdiv.
      pose proof (SFdiv_core_nonneg Number.prec Number.emax p 0 (Pos.pow 10 k) 0) as H.
      destruct (SFdiv_core_binary _ _ _ _ _ _) as [[mz ez] lz]. simpl in H.
      now apply binary_round_aux_not_nan. }
  destruct (Number.of_decimal neg m e); try reflexivity. congruence.
Qed.

Lemma digitValue_decimal c :
  (isDigit c = true -> exists d, NumericLiteral.digitValue 10 c = Some d)
  /\ (isDigit c = false -> NumericLiteral.digitValue 10 c = None).
Proof.
  destruct c as [[] [] [] [] [] [] [] []]; vm_compute; split; intros H;
    try discriminate; eauto.
Qed.

Lemma digits_count radix s : forall acc n,
  n <= snd (fst (NumericLiteral.digits radix s acc n)).
Proof.
  induction s as [|c s IH]; simpl; intros acc n; auto.
  destruct (NumericLiteral.digitValue radix c); simpl; auto.
  specialize (IH (radix * acc + z)%Z (S n)). lia.
Qed.

Lemma digits_head radix c s acc n d :
  NumericLiteral.digitValue radix c = Some d ->
  exists v m r, NumericLiteral.digits radix (String c s) acc n = (v, S m, r).
Proof.
  intros H. simpl. rewrite H.
  pose proof (digits_count radix s (radix * acc + d)%Z (S n)) as Hc.
  destruct (NumericLiteral.digits radix s _ (S n)) as [[v m] r]. simpl in Hc.
  destruct m as [|m]; [lia|]. eauto.
Qed.

Lemma digits_stop radix c s acc n :
  NumericLiteral.digitValue radix c = None -> NumericLiteral.digits radix (String c s) acc n = (acc, n, String c s).
Proof. intros H. simpl. now rewrite H. Qed.

Lemma exponentPart_pair s : exists e r, NumericLiteral.exponentPart s = (e, r).
Proof. destruct (NumericLiteral.exponentPart s); eauto. Qed.

Lemma dot_match {T : Type} c r (A : string -> T) (B : T) :
  match String c r with
  | String "." r' => A r'
  | _ => B
  end = if (c =? ".")%char then A r else B.
Proof. destruct c as [[] [] [] [] [] [] [] []]; reflexivity. Qed.

Lemma strUnsigned_cases neg s :
  (startsUnsigned s = false /\ NumericLiteral.strUnsignedDecimalLiteral neg s = None)
  \/ (startsUnsigned s = true
      /\ exists n r, NumericLiteral.strUnsignedDecimalLiteral neg s = Some (n, r)
                     /\ Number.isNaN n = false).
Proof.
  unfold NumericLiteral.strUnsignedDecimalLiteral, startsUnsigned,
    NumericLiteral.stripPrefix.
  destruct (prefix "Infinity" s) eqn:Hp; cbv beta iota.
  - right. split; eauto.
  - rewrite orb_false_l. destruct s as [|c r].
    + left. split; reflexivity.
    + destruct (digitValue_decimal c) as [Hd Hn].
      destruct (isDigit c) eqn:Hc.
      * right. split; auto.
        destruct (Hd eq_refl) as [d Hv].
        destruct (digits_head 10 c r 0%Z 0 d Hv) as (v & m & r1 & ->).
        destruct (match r1 with String "." r0 => NumericLiteral.digits 10 r0 v 0 | _ => (v, 0, r1) end)
          as [[m0 nf] r2].
        simpl. destruct (NumericLiteral.exponentPart r2) as [e r3].
        eexists _, _. split; [reflexivity|apply of_decimal_not_NaN].
      * rewrite (digits_stop 10 c r 0%Z 0 (Hn eq_refl)).
        rewrite (dot_match c r (fun r' => NumericLiteral.digits 10 r' 0%Z 0) (0%Z, 0, String c r)).
        destruct (c =? ".")%char; simpl; [|left; split; reflexivity].
        destruct r as [|d r'].
        -- left. split; reflexivity.
        -- destruct (digitValue_decimal d) as [Hd' Hn'].
           destruct (isDigit d) eqn:Hc'.
           ++ right. split; auto.
              destruct (Hd' eq_refl) as [d0 Hv].
              destruct (digits_head 10 d r' 0%Z 0 d0 Hv) as (v & m & r1 & ->).
              simpl. destruct (NumericLiteral.exponentPart r1) as [e r3].
              eexists _, _. split; [reflexivity|apply of_decimal_not_NaN].
           ++ left. split; auto.
              now rewrite (digits_stop 10 d r' 0%Z 0 (Hn' eq_refl)).
Qed.

Lemma sign_match {T : Type} c r (P M O : T) :
  match String c r with
  | String "+" _ => P
  | String "-" _ => M
  | _ => O
  end = if (c =? "+")%char then P else if (c =? "-")%char then M else O.
Proof. destruct c as [[] [] [] [] [] [] [] []]; reflexivity. Qed.

Lemma parseFloat_NaN_iff s :
  Number.isNaN (NumericLiteral.parseFloat s) = negb (hasNumericPrefix s).
Proof.
  unfold NumericLiteral.parseFloat, hasNumericPrefix,
    NumericLiteral.strDecimalLiteral.
  destruct (JsString.trimStart s) as [|c r].
  - reflexivity.
  - assert (E : match String c r with
               | String "+" r0 => NumericLiteral.strUnsignedDecimalLiteral false r0
               | String "-" r0 => NumericLiteral.strUnsignedDecimalLiteral true r0
               | _ => NumericLiteral.strUnsignedDecimalLiteral false (String c r)
               end
               = if (c =? "+")%char then NumericLiteral.strUnsignedDecimalLiteral false r
                 else if (c =? "-")%char then NumericLiteral.strUnsignedDecimalLiteral true r
                 else NumericLiteral.strUnsignedDecimalLiteral false (String c r)).
    { destruct c as [[] [] [] [] [] [] [] []]; reflexivity. }
    rewrite E. clear E.
    destruct (c =? "+")%char; simpl.
    + destruct (strUnsigned_cases false r) as [[-> ->]|(-> & n & r' & -> & Hn)];
        simpl; rewrite ?Hn; reflexivity.
    + destruct (c =? "-")%char.
      * destruct (strUnsigned_cases true r) as [[-> ->]|(-> & n & r' & -> & Hn)];
          simpl; rewrite ?Hn; reflexivity.
      * destruct (strUnsigned_cases false (String c r))
          as [[-> ->]|(-> & n & r' & -> & Hn)]; simpl; rewrite ?Hn; reflexivity.
Qed.

Lemma parseFloat_value_NaN v :
  Number.isNaN (parseFloat v) = negb (numericConstraint v).
Proof.
  destruct v as [| |b|n|s]; simpl; try reflexivity.
  - destruct b; reflexivity.
  - destruct n; reflexivity.
  - apply parseFloat_NaN_iff.
Qed.

Lemma filterProducts_skips_minPrice l q :
  Number.isNaN (parseFloat (Query.minPrice q)) = true ->
  filterProducts l q =
  filterProducts l
    (Query.mk (Query.title q) (Query.slug q) VUndefined (Query.maxPrice q)).
Proof.
  intros H. rewrite !filterProducts_passes.
  change (titlePass (Query.mk _ _ _ _) l) with (titlePass q l).
  destruct (titlePass q l) as [r1|]; simpl; [|reflexivity].
  change (slugPass (Query.mk _ _ _ _) r1) with (slugPass q r1).
  destruct (slugPass q r1) as [r2|]; simpl; [|reflexivity].
  rewrite (minPricePass_notNumeric q r2 H). reflexivity.
Qed.

Lemma filterProducts_skips_maxPrice l q :
  Number.isNaN (parseFloat (Query.maxPrice q)) = true ->
  filterProducts l q =
  filterProducts l
    (Query.mk (Query.title q) (Query.slug q) (Query.minPrice q) VUndefined).
Proof.
  intros H. rewrite !filterProducts_passes.
  change (titlePass (Query.mk _ _ _ _) l) with (titlePass q l).
  destruct (titlePass q l) as [r1|]; simpl; [|reflexivity].
  change (slugPass (Query.mk _ _ _ _) r1) with (slugPass q r1).
  destruct (slugPass q r1) as [r2|]; simpl; [|reflexivity].
  change (minPricePass (Query.mk _ _ _ _) r2) with (minPricePass q r2).
  destruct (minPricePass q r2) as [r3|]; simpl; [|reflexivity].
  rewrite (maxPricePass_notNumeric q r3 H). reflexivity.
Qed.

(** C6, as the code has it.  A price constraint is left out exactly
    when its value does not begin with a number (after leading white
    space: an optional sign, then [Infinity], a digit, or a dot and a
    digit), which is when [parseFloat] gives NaN: the query then gives
    what it gives without that field.  With [{maxPrice: "abc"}] alone
    the result is the input list.  A value that begins with a number is
    applied as the number [parseFloat] reads, "20abc" as 20. *)
Theorem filterProducts_price_needs_number :
  (forall v, Number.isNaN (parseFloat v) = negb (numericConstraint v))
  /\ (forall l q,
        numericConstraint (Query.minPrice q) = false ->
        filterProducts l q =
        filterProducts l
          (Query.mk (Query.title q) (Query.slug q) VUndefined (Query.maxPrice q)))
  /\ (forall l q,
        numericConstraint (Query.maxPrice q) = false ->
        filterProducts l q =
        filterProducts l
          (Query.mk (Query.title q) (Query.slug q) (Query.minPrice q) VUndefined))
  /\ (forall l,
        filterProducts l (Query.mk VUndefined VUndefined VUndefined (VStr "abc"))
        = Ok l)
  /\ (forall v, numericConstraint v = true -> bound v = Some (parseFloat v))
  /\ filterProducts [shoe; hat]
       (Query.mk VUndefined VUndefined VUndefined (VStr "20abc"))
     = Ok [shoe].
Proof.
  split; [exact parseFloat_value_NaN|]. split; [|split; [|split; [|split]]].
  - intros l q H. apply filterProducts_skips_minPrice.
    now rewrite parseFloat_value_NaN, H.
  - intros l q H. apply filterProducts_skips_maxPrice.
    now rewrite parseFloat_value_NaN, H.
  - intros l. rewrite filterProducts_passes. simpl.
    apply maxPricePass_notNumeric. reflexivity.
  - intros v H. pose proof (parseFloat_value_NaN v) as E. rewrite H in E.
    unfold bound. destruct v as [| |b|n|s]; try discriminate.
    + now rewrite E.
    + destruct s; [discriminate|]. now rewrite E.
  - vm_compute. reflexivity.
Qed.

Lemma filterProducts_price_needs_number_witness :
  numericConstraint (VStr " n/a") = false
  /\ filterProducts [shoe; hat]
       (Query.mk VUndefined VUndefined (VStr "20") (VStr " n/a"))
     = Ok [hat]
  /\ filterProducts [shoe; hat]
       (Query.mk VUndefined VUndefined (VStr "e5") (VStr "20"))
     = Ok [shoe].
Proof.
  split; [reflexivity|]. split.
  - rewrite (proj1 (proj2 (proj2 filterProducts_price_needs_number)) [shoe; hat]
               (Query.mk VUndefined VUndefined (VStr "20") (VStr " n/a")) eq_refl).
    vm_compute. reflexivity.
  - rewrite (proj1 (proj2 filterProducts_price_needs_number) [shoe; hat]
               (Query.mk VUndefined VUndefined (VStr "e5") (VStr "20")) eq_refl).
    vm_compute. reflexivity.
Defined.

(** C6, as stated, fails: "20abc" is not a number ([ToNumber] gives
    NaN), yet as [maxPrice] it is applied as the bound 20 and the
    record priced 50 is dropped. *)
Lemma filterProducts_malformed_price_counterexample :
  ToNumber (VStr "20abc") = Number.NaN
  /\ filterProducts [shoe; hat]
       (Query.mk VUndefined VUndefined VUndefined (VStr "20abc"))
     = Ok [shoe]
  /\ filterProducts [shoe; hat]
       (Query.mk VUndefined VUndefined VUndefined (VStr "20abc"))
     <> Ok [shoe; hat].
Proof.
  split; [vm_compute; reflexivity|].
  split; [vm_compute; reflexivity|].
  vm_compute. discriminate.
Qed.




(** C10. Whatever the query, a result of [filterProducts] is a
    subsequence of the input: its records are records of the input, in
    the input's order, none more often than there; and on records and
    queries of the data model there is such a result. *)
Theorem filterProducts_subsequence (l : list Product.t) (q : Query.t) :
  (forall r, filterProducts l q = Ok r ->
             Subseq r l /\ (forall p, In p r -> In p l)
             /\ List.length r <= List.length l)
  /\ (Forall plainTitle l ->
      absentOrText (Query.title q) -> absentOrText (Query.slug q) ->
      exists r, filterProducts l q = Ok r /\ Subseq r l).
Proof.
  assert (H : forall r, filterProducts l q = Ok r -> Subseq r l).
  { intros r Hr. apply (filterProducts_narrowing q l r Hr). }
  split.
  - intros r Hr. pose proof (H r Hr) as Hsub. repeat split; auto.
    + intros p. now apply Subseq_In.
    + now apply Subseq_length.
  - intros Hl Ht Hs.
    destruct (filterProducts_completes l q Hl Ht Hs) as [r Hr]. eauto.
Qed.

Lemma filterProducts_subsequence_witness :
  Subseq [hat] [shoe; hat; shoe]
  /\ exists r,
       filterProducts [shoe; hat; shoe]
         (Query.mk (VStr "A") (VStr " ") (VStr "abc") (VStr "50")) = Ok r
       /\ Subseq r [shoe; hat; shoe].
Proof.
  split.
  - apply (proj1 (filterProducts_subsequence [shoe; hat; shoe]
                    (Query.mk (VStr "A") (VStr " ") (VStr "abc") (VStr "50")))).
    vm_compute. reflexivity.
  - apply (proj2 (filterProducts_subsequence [shoe; hat; shoe]
                    (Query.mk (VStr "A") (VStr " ") (VStr "abc") (VStr "50")))).
    + repeat constructor.
    + exact I.
    + exact I.
Defined.

(** * The fetcher: stated properties *)

Lemma attempt_failed {A : Type} (o : completion (Response.t A)) (http : Response.t A -> error) :
  failed o ->
  exists e, (response <- o ;;
             if negb (Response.ok response) then Throw (http response)
             else Response.json response) = Throw e.
Proof.
  destruct o as [response|e]; simpl; eauto.
  intros [H|[e H]]; rewrite H; simpl; eauto.
  destruct (negb (Response.ok response)); eauto.
Qed.

Lemma attempt_succeeded {A : Type} (o : completion (Response.t A)) (http : Response.t A -> error) payload :
  succeeded o payload ->
  (response <- o ;;
   if negb (Response.ok response) then Throw (http response)
   else Response.json response) = Ok payload.
Proof.
  intros (response & -> & Hok & Hjson). simpl. now rewrite Hok.
Qed.

Lemma getAll_loop_failed up attempt later w :
  failed (up API_PRODUCTS (requests w)) ->
  exists e,
    getAll_loop up (attempt :: later) w =
    let w1 := print (GetAllError attempt e)
                (mkWorld (S (requests w)) (console w) (waited w)) in
    if attempt <=? FETCH_RETRIES
    then getAll_loop up later (sleep 2000 (print Retrying w1))
    else (Ok [], w1).
Proof.
  intros H.
  destruct (attempt_failed _
              (fun response =>
                 Error ("HTTP " ++ decimal (Response.status response)
                        ++ ": " ++ Response.statusText response)%string) H) as [e He].
  exists e. cbn [getAll_loop fetch]. cbv zeta. rewrite He. reflexivity.
Qed.

Lemma getAll_loop_succeeded up attempt later w products :
  succeeded (up API_PRODUCTS (requests w)) products ->
  getAll_loop up (attempt :: later) w =
  (Ok products, mkWorld (S (requests w)) (console w) (waited w)).
Proof.
  intros H. cbn [getAll_loop fetch]. cbv zeta.
  rewrite (attempt_succeeded _
             (fun response =>
                Error ("HTTP " ++ decimal (Response.status response)
                       ++ ": " ++ Response.statusText response)%string) _ H).
  reflexivity.
Qed.

Lemma attempt_cases {A : Type} (o : completion (Response.t A)) :
  failed o \/ exists payload, succeeded o payload.
Proof.
  destruct o as [response|e]; simpl; auto.
  destruct (Response.ok response) eqn:Hok; auto.
  destruct (Response.json response) as [payload|e] eqn:Hjson; eauto.
  right. exists payload, response. auto.
Qed.

Lemma failed_not_succeeded {A : Type} (o : completion (Response.t A)) payload :
  failed o -> succeeded o payload -> False.
Proof.
  intros Hf (response & -> & Hok & Hjson). simpl in Hf.
  destruct Hf as [H|[e H]]; congruence.
Qed.

Lemma succeeded_same {A : Type} (o : completion (Response.t A)) p p' :
  succeeded o p -> succeeded o p' -> p = p'.
Proof.
  intros (r & -> & _ & H) (r' & E & _ & H'). inversion E; subst. congruence.
Qed.

(** The loop over the attempts [a], [a+1], ... up to [FETCH_RETRIES + 1]. *)
Lemma getAll_loop_spec up n : forall a w,
  a + n = FETCH_RETRIES + 2 ->
  (exists l, fst (getAll_loop up (seq a n) w) = Ok l)
  /\ requests (snd (getAll_loop up (seq a n) w)) <= requests w + n
  /\ ((forall i, i < n -> failed (up API_PRODUCTS (requests w + i))) ->
      fst (getAll_loop up (seq a n) w) = Ok []
      /\ requests (snd (getAll_loop up (seq a n) w)) = requests w + n)
  /\ (forall k products,
        k < n ->
        (forall i, i < k -> failed (up API_PRODUCTS (requests w + i))) ->
        succeeded (up API_PRODUCTS (requests w + k)) products ->
        fst (getAll_loop up (seq a n) w) = Ok products
        /\ requests (snd (getAll_loop up (seq a n) w)) = requests w + k + 1).
Proof.
  induction n as [|n IH]; intros a w Han.
  - simpl. repeat split; eauto; lia.
  - change (seq a (S n)) with (a :: seq (S a) n).
    destruct (attempt_cases (up API_PRODUCTS (requests w))) as [Hf|[payload Hs]].
    + destruct (getAll_loop_failed up a (seq (S a) n) w Hf) as [e ->].
      cbv zeta.
      destruct (a <=? FETCH_RETRIES) eqn:Ha.
      * set (w2 := sleep 2000 _).
        assert (Hw2 : requests w2 = S (requests w)) by reflexivity.
        destruct (IH (S a) w2 ltac:(lia)) as (H1 & H2 & H3 & H4).
        rewrite Hw2 in *.
        split; [exact H1|]. split; [lia|]. split.
        -- intros Hall. destruct H3 as [H3 H3'].
           { intros i Hi. replace (S (requests w) + i) with (requests w + S i) by lia.
             apply Hall. lia. }
           split; [exact H3|lia].
        -- intros k products Hk Hbefore Hat.
           destruct k as [|k].
           { rewrite Nat.add_0_r in Hat. destruct (failed_not_succeeded _ _ Hf Hat). }
           destruct (H4 k products) as [H4a H4b]; try lia.
           { intros i Hi. replace (S (requests w) + i) with (requests w + S i) by lia.
             apply Hbefore. lia. }
           { replace (S (requests w) + k) with (requests w + S k) by lia. exact Hat. }
           split; [exact H4a|lia].
      * apply Nat.leb_gt in Ha. assert (n = 0) by lia. subst n. simpl.
        split; [eauto|]. split; [lia|]. split.
        -- intros _. split; [reflexivity|lia].
        -- intros k products Hk Hbefore Hat.
           assert (k = 0) by lia. subst k.
           rewrite Nat.add_0_r in Hat. destruct (failed_not_succeeded _ _ Hf Hat).
    + rewrite (getAll_loop_succeeded up a (seq (S a) n) w payload Hs). simpl.
      split; [eauto|]. split; [lia|]. split.
      * intros Hall. specialize (Hall 0 ltac:(lia)). rewrite Nat.add_0_r in Hall.
        destruct (failed_not_succeeded _ _ Hall Hs).
      * intros k products Hk Hbefore Hat. destruct k as [|k].
        -- rewrite Nat.add_0_r in Hat. rewrite (succeeded_same _ _ _ Hs Hat).
           split; [reflexivity|lia].
        -- specialize (Hbefore 0 ltac:(lia)). rewrite Nat.add_0_r in Hbefore.
           destruct (failed_not_succeeded _ _ Hbefore Hs).
Qed.

(** C1. [getAll] never rejects and sends at most 3 requests; when the
    3 attempts all fail (rejected or aborted request, status other than
    2xx, unparsable body) it returns the empty list after exactly 3
    requests; when attempt [k + 1 <= 3] is the first to succeed it
    returns the payload of that attempt after exactly [k + 1] requests. *)
Theorem getAll_retry_contract (up : upstream (list Product.t)) (w : world) :
  (exists l, fst (getAll up w) = Ok l)
  /\ requests (snd (getAll up w)) <= requests w + 3
  /\ ((forall i, i < 3 -> failed (up API_PRODUCTS (requests w + i))) ->
      fst (getAll up w) = Ok []
      /\ requests (snd (getAll up w)) = requests w + 3)
  /\ (forall k products,
        k < 3 ->
        (forall i, i < k -> failed (up API_PRODUCTS (requests w + i))) ->
        succeeded (up API_PRODUCTS (requests w + k)) products ->
        fst (getAll up w) = Ok products
        /\ requests (snd (getAll up w)) = requests w + k + 1).
Proof.
  exact (getAll_loop_spec up (FETCH_RETRIES + 1) 1 w eq_refl).
Qed.

Lemma getAll_retry_contract_witness :
  (fst (getAll flaky idle) = Ok [shoe; hat]
   /\ requests (snd (getAll flaky idle)) = 3)
  /\ (fst (getAll down idle) = Ok []
      /\ requests (snd (getAll down idle)) = 3).
Proof.
  split.
  - apply (proj2 (proj2 (proj2 (getAll_retry_contract flaky idle))) 2 [shoe; hat]).
    + lia.
    + intros i Hi. destruct i as [|[|i]]; simpl; auto. lia.
    + simpl. eexists. repeat split.
  - apply (proj1 (proj2 (proj2 (getAll_retry_contract down idle)))).
    intros i Hi. destruct i as [|[|[|i]]]; simpl; eauto.
Defined.

Ltac outcome_cases :=
  repeat match goal with
         | H : _ \/ _ |- _ => destruct H
         | H : exists _, _ |- _ => destruct H
         | H : _ /\ _ |- _ => destruct H
         | H : Ok _ = Ok _ |- _ => inversion H; clear H; subst
         end;
  try congruence; eauto; try lia.

(** C7. [getById] sends one request.  When it fails (rejected request,
    status other than 2xx, unparsable body) [getById] returns [null]
    and the handler answers 404 with an object that has an [error]
    field; when it succeeds [getById] returns the parsed record and the
    handler answers 200 with that record.  The handler's answer follows
    what [getById] returned. *)
Theorem getById_contract (up : upstream Product.t) (id : string) (w : world) :
  (failed (up (API_PRODUCTS ++ "/" ++ id)%string (requests w)) ->
   fst (getById up id w) = Ok None
   /\ exists message,
        fst (productById up id w) = Some (mkReply 404 (JsonError message)))
  /\ (forall p,
        succeeded (up (API_PRODUCTS ++ "/" ++ id)%string (requests w)) p ->
        fst (getById up id w) = Ok (Some p)
        /\ fst (productById up id w) = Some (mkReply 200 (JsonProduct p)))
  /\ (fst (getById up id w) = Ok None ->
      exists message,
        fst (productById up id w) = Some (mkReply 404 (JsonError message)))
  /\ (forall p,
        fst (getById up id w) = Ok (Some p) ->
        fst (productById up id w) = Some (mkReply 200 (JsonProduct p)))
  /\ requests (snd (getById up id w)) = requests w + 1.
Proof.
  unfold productById, getById, fetch, failed, succeeded.
  destruct (up (API_PRODUCTS ++ "/" ++ id)%string (requests w)) as [response|e];
    simpl;
    [destruct (Response.ok response) eqn:Hok; simpl;
     [destruct (Response.json response) as [product|e] eqn:Hjson; simpl|]|];
    repeat split; intros; outcome_cases.
Qed.

Lemma getById_contract_witness :
  (fst (getById catalogue "7" idle) = Ok (Some hat)
   /\ fst (productById catalogue "7" idle) = Some (mkReply 200 (JsonProduct hat)))
  /\ (fst (getById catalogue "8" idle) = Ok None
      /\ exists message,
           fst (productById catalogue "8" idle)
           = Some (mkReply 404 (JsonError message))).
Proof.
  split.
  - apply (proj1 (proj2 (getById_contract catalogue "7" idle)) hat).
    eexists. repeat split.
  - apply (proj1 (getById_contract catalogue "8" idle)).
    simpl. auto.
Defined.

(** * The filter over the store *)

Lemma extends_refl h : Store.extends h h.
Proof. exists []. now rewrite app_nil_r. Qed.

Lemma extends_trans h1 h2 h3 :
  Store.extends h1 h2 -> Store.extends h2 h3 -> Store.extends h1 h3.
Proof. intros [m1 ->] [m2 ->]. exists (m1 ++ m2). now rewrite app_assoc. Qed.

Lemma read_extends h h' a c :
  Store.extends h h' -> Store.read h a = Some c -> Store.read h' a = Some c.
Proof.
  intros [more ->] H. unfold Store.read in *.
  rewrite nth_error_app1; auto. apply nth_error_Some. congruence.
Qed.

Section Allocates.
Context {A B : Type}.

Lemma allocates_ret (a : A) : Store.allocates (Store.ret a).
Proof. intros h. apply extends_refl. Qed.

Lemma allocates_lift (c : completion A) : Store.allocates (Store.lift c).
Proof. intros h. apply extends_refl. Qed.

Lemma allocates_bind (m : Store.run A) (k : A -> Store.run B) :
  Store.allocates m -> (forall a, Store.allocates (k a)) ->
  Store.allocates (Store.bind m k).
Proof.
  intros Hm Hk h. unfold Store.bind. specialize (Hm h).
  destruct (m h) as [[a|e] h']; simpl in *; auto.
  eapply extends_trans; [exact Hm|apply Hk].
Qed.
End Allocates.

Lemma allocates_spread arr : Store.allocates (Store.spread arr).
Proof.
  intros h. unfold Store.spread, Store.alloc.
  destruct (Store.elements h arr); simpl;
    [eexists; reflexivity|apply extends_refl].
Qed.

Lemma allocates_filter callback arr : Store.allocates (Store.filter callback arr).
Proof.
  intros h. unfold Store.filter, Store.alloc.
  destruct (bind _ _); simpl;
    [eexists; reflexivity|apply extends_refl].
Qed.

Ltac allocation :=
  repeat first
    [ apply allocates_ret | apply allocates_lift
    | apply allocates_spread | apply allocates_filter
    | apply allocates_bind; [|intros ?]
    | match goal with
      | |- Store.allocates (if ?c then _ else _) => destruct c
      end
    | progress cbv zeta ].

Lemma filterProducts_allocates products query :
  Store.allocates (Store.filterProducts products query).
Proof. unfold Store.filterProducts. allocation. Qed.

Lemma record_extends h h' a p :
  Store.extends h h' -> Store.record h a = Ok p -> Store.record h' a = Ok p.
Proof.
  unfold Store.record. intros He H.
  destruct (Store.read h a) as [[es|p0]|] eqn:E; try discriminate.
  now rewrite (read_extends h h' a _ He E).
Qed.

Lemma records_extends h h' es l :
  Store.extends h h' -> Store.records h es = Ok l -> Store.records h' es = Ok l.
Proof.
  intros He. revert l. induction es as [|a es IH]; simpl; intros l H; auto.
  destruct (Store.record h a) as [p|] eqn:Ea; simpl in H; try discriminate.
  destruct (Store.records h es) as [ps|] eqn:Ees; simpl in H; try discriminate.
  rewrite (record_extends h h' a p He Ea), (IH ps eq_refl). exact H.
Qed.

Lemma holds_extends h h' a l :
  Store.extends h h' -> Store.holds h a l -> Store.holds h' a l.
Proof.
  intros He (es & Hr & Hl). exists es. split.
  - eapply read_extends; eauto.
  - eapply records_extends; eauto.
Qed.

Lemma holds_alloc h es l :
  Store.records h es = Ok l ->
  Store.holds (h ++ [Store.Arr es]) (List.length h) l.
Proof.
  intros H. exists es. split.
  - unfold Store.read. rewrite nth_error_app2 by lia.
    now rewrite Nat.sub_diag.
  - eapply records_extends; [|exact H]. eexists; reflexivity.
Qed.

Lemma select_records h callback es : forall l,
  Store.records h es = Ok l ->
  match Store.select h callback es with
  | Ok es' => exists l', Array_filter callback l = Ok l' /\ Store.records h es' = Ok l'
  | Throw e => Array_filter callback l = Throw e
  end.
Proof.
  induction es as [|a es IH]; simpl; intros l H.
  - inversion H; subst. simpl. eauto.
  - destruct (Store.record h a) as [p|] eqn:Ea; simpl in *; try discriminate.
    destruct (Store.records h es) as [ps|] eqn:Ees; simpl in H; try discriminate.
    inversion H; subst l; clear H. simpl.
    destruct (callback p) as [keep|e]; simpl; auto.
    specialize (IH ps eq_refl).
    destruct (Store.select h callback es) as [es'|e]; simpl.
    + destruct IH as (l' & -> & Hl'). simpl.
      destruct keep; simpl; eauto.
      rewrite Ea, Hl'. simpl. eauto.
    + rewrite IH. reflexivity.
Qed.

Lemma refines_ret : Store.refines Store.ret (fun l => Ok l).
Proof. intros h a l H. simpl. split; [apply extends_refl|eauto]. Qed.

Lemma refines_spread : Store.refines Store.spread (fun l => Ok l).
Proof.
  intros h a l (es & Hr & Hl). unfold Store.spread, Store.elements, Store.alloc.
  rewrite Hr. split; [eexists; reflexivity|].
  exists l. split; auto. now apply holds_alloc.
Qed.

Lemma refines_filter callback :
  Store.refines (Store.filter callback) (Array_filter callback).
Proof.
  intros h a l (es & Hr & Hl). unfold Store.filter, Store.elements, Store.alloc.
  rewrite Hr. simpl.
  pose proof (select_records h callback es l Hl) as H.
  destruct (Store.select h callback es) as [es'|e].
  - destruct H as (l' & H1 & H2). split; [eexists; reflexivity|].
    exists l'. split; auto. now apply holds_alloc.
  - split; [apply extends_refl|exact H].
Qed.

Lemma refines_seq m1 m2 P1 P2 :
  Store.refines m1 P1 -> Store.refines m2 P2 ->
  Store.refines (fun a => Store.bind (m1 a) m2) (fun l => bind (P1 l) P2).
Proof.
  intros H1 H2 h a l Hl. unfold Store.bind. specialize (H1 h a l Hl).
  destruct (m1 a h) as [[a1|e] h1].
  - destruct H1 as (He & l1 & -> & Hl1). simpl.
    specialize (H2 h1 a1 l1 Hl1).
    destruct (m2 a1 h1) as [[a2|e] h2].
    + destruct H2 as (He2 & l2 & E & Hl2). split; eauto using extends_trans.
    + destruct H2 as (He2 & E). split; eauto using extends_trans.
  - destruct H1 as (He & ->). auto.
Qed.

Lemma refines_guard {B : Type} (c : completion B) (m : B -> Store.loc -> Store.run Store.loc)
  (P : B -> list Product.t -> completion (list Product.t)) :
  (forall b, Store.refines (m b) (P b)) ->
  Store.refines (fun a => Store.bind (Store.lift c) (fun b => m b a))
                (fun l => bind c (fun b => P b l)).
Proof.
  intros H h a l Hl. unfold Store.bind, Store.lift.
  destruct c as [b|e]; simpl.
  - apply (H b h a l Hl).
  - split; [apply extends_refl|reflexivity].
Qed.

Lemma refines_if (c : bool) m1 m2 P1 P2 :
  Store.refines m1 P1 -> Store.refines m2 P2 ->
  Store.refines (fun a => if c then m1 a else m2 a)
                (fun l => if c then P1 l else P2 l).
Proof. destruct c; auto. Qed.

Lemma refines_copy m P :
  Store.refines m P ->
  Store.refines (fun a => Store.bind (Store.spread a) m) P.
Proof. intros H. exact (refines_seq _ _ _ _ refines_spread H). Qed.

Lemma filterProducts_refines query :
  Store.refines (fun products => Store.filterProducts products query)
                (fun products => filterProducts products query).
Proof.
  unfold Store.filterProducts, filterProducts. cbv zeta.
  apply refines_copy.
  apply refines_guard; intros byTitle.
  apply refines_seq.
  { apply refines_if; [|apply refines_ret].
    apply refines_guard; intros t. apply refines_filter. }
  apply refines_guard; intros bySlug.
  apply refines_seq.
  { apply refines_if; [|apply refines_ret].
    apply refines_guard; intros t. apply refines_filter. }
  apply refines_seq.
  { apply refines_if; [apply refines_if|];
      auto using refines_filter, refines_ret. }
  apply refines_seq.
  { apply refines_if; [apply refines_if|];
      auto using refines_filter, refines_ret. }
  apply refines_ret.
Qed.

Lemma extends_length h h' : Store.extends h h' -> List.length h <= List.length h'.
Proof. intros [more ->]. rewrite length_app. lia. Qed.

Lemma returnsPast_ret n a : n <= a -> Store.returnsPast n (Store.ret a).
Proof. intros H h _. exact H. Qed.

Lemma returnsPast_spread n arr : Store.returnsPast n (Store.spread arr).
Proof.
  intros h H. unfold Store.spread, Store.alloc.
  destruct (Store.elements h arr); simpl; auto.
Qed.

Lemma returnsPast_filter n callback arr :
  Store.returnsPast n (Store.filter callback arr).
Proof.
  intros h H. unfold Store.filter, Store.alloc.
  destruct (bind _ _); simpl; auto.
Qed.

Lemma returnsPast_bind n (m : Store.run Store.loc) (k : Store.loc -> Store.run Store.loc) :
  Store.allocates m -> Store.returnsPast n m ->
  (forall a, n <= a -> Store.returnsPast n (k a)) ->
  Store.returnsPast n (Store.bind m k).
Proof.
  intros Ha Hm Hk h Hn. unfold Store.bind.
  specialize (Hm h Hn). specialize (Ha h).
  destruct (m h) as [[a|e] h']; simpl in *; auto.
  apply (Hk a Hm). apply extends_length in Ha. lia.
Qed.

Lemma returnsPast_guard {B : Type} n (c : completion B) (k : B -> Store.run Store.loc) :
  (forall b, Store.returnsPast n (k b)) ->
  Store.returnsPast n (Store.bind (Store.lift c) k).
Proof.
  intros Hk h Hn. unfold Store.bind, Store.lift.
  destruct c as [b|e]; simpl; auto. now apply Hk.
Qed.

Ltac past :=
  repeat first
    [ apply returnsPast_ret; assumption
    | apply returnsPast_spread | apply returnsPast_filter
    | apply returnsPast_guard; intros ?
    | apply returnsPast_bind; [allocation| |intros ? ?]
    | match goal with
      | |- Store.returnsPast _ (if ?c then _ else _) => destruct c
      end
    | progress cbv zeta ].

Lemma filterProducts_returnsPast n products query :
  Store.returnsPast n (Store.filterProducts products query).
Proof. unfold Store.filterProducts. past. Qed.

(** C9. [filterProducts] does not change its input: every object of the
    store before the call, the input array and each of its records
    among them, is the same after it, whether the call returns or
    throws.  The array it returns is a new one, and holds the list the
    filter computes from the records of the input. *)
Theorem filterProducts_leaves_input (h : Store.heap) (products : Store.loc)
  (q : Query.t) :
  (forall a c,
      Store.read h a = Some c ->
      Store.read (snd (Store.filterProducts products q h)) a = Some c)
  /\ (forall l,
        Store.holds h products l ->
        Store.holds (snd (Store.filterProducts products q h)) products l
        /\ match fst (Store.filterProducts products q h) with
           | Ok result =>
               List.length h <= result
               /\ exists r,
                    filterProducts l q = Ok r
                    /\ Store.holds (snd (Store.filterProducts products q h)) result r
           | Throw e => filterProducts l q = Throw e
           end).
Proof.
  pose proof (filterProducts_allocates products q h) as Hext.
  split.
  - intros a c. now apply read_extends.
  - intros l Hl. split; [now apply (holds_extends h)|].
    pose proof (filterProducts_refines q h products l Hl) as H.
    cbv beta in H.
    destruct (Store.filterProducts products q h) as [[result|e] h'] eqn:E; simpl.
    + destruct H as (_ & r & Hr & Hh). split; [|eauto].
      pose proof (filterProducts_returnsPast (List.length h) products q h (le_n _)) as Hnew.
      now rewrite E in Hnew.
    + apply H.
Qed.

Lemma filterProducts_leaves_input_witness :
  Store.read shelf 2 = Some (Store.Arr [0; 1])
  /\ Store.read
       (snd (Store.filterProducts 2
               (Query.mk VUndefined VUndefined (VStr "20") VUndefined) shelf))
       2 = Some (Store.Arr [0; 1])
  /\ Store.holds
       (snd (Store.filterProducts 2
               (Query.mk VUndefined VUndefined (VStr "20") VUndefined) shelf))
       2 [shoe; hat].
Proof.
  split; [reflexivity|]. split.
  - apply (proj1 (filterProducts_leaves_input shelf 2
                    (Query.mk VUndefined VUndefined (VStr "20") VUndefined))).
    reflexivity.
  - apply (proj2 (filterProducts_leaves_input shelf 2
                    (Query.mk VUndefined VUndefined (VStr "20") VUndefined))
             [shoe; hat]).
    exists [0; 1]. split; reflexivity.
Defined.

(** * Further properties of the fetcher *)

Lemma errorLines_app c1 c2 : errorLines (c1 ++ c2) = errorLines c1 + errorLines c2.
Proof. unfold errorLines. now rewrite filter_app, length_app. Qed.

Lemma retryLines_app c1 c2 : retryLines (c1 ++ c2) = retryLines c1 + retryLines c2.
Proof. unfold retryLines. now rewrite filter_app, length_app. Qed.

(** What the loop over the attempts [a], [a+1], ... prints and how long
    it waits. *)
Lemma getAll_loop_effects up n : forall a w,
  a + n = FETCH_RETRIES + 2 ->
  ((forall i, i < n -> failed (up API_PRODUCTS (requests w + i))) ->
   exists new,
     console (snd (getAll_loop up (seq a n) w)) = new ++ console w
     /\ errorLines new = n /\ retryLines new = n - 1
     /\ waited (snd (getAll_loop up (seq a n) w))
        = (waited w + 2000 * N.of_nat (n - 1))%N)
  /\ (forall k products,
        k < n ->
        (forall i, i < k -> failed (up API_PRODUCTS (requests w + i))) ->
        succeeded (up API_PRODUCTS (requests w + k)) products ->
        exists new,
          console (snd (getAll_loop up (seq a n) w)) = new ++ console w
          /\ errorLines new = k /\ retryLines new = k
          /\ waited (snd (getAll_loop up (seq a n) w))
             = (waited w + 2000 * N.of_nat k)%N).
Proof.
  induction n as [|n IH]; intros a w Han.
  - simpl. split.
    + intros _. exists []. repeat split. lia.
    + intros k products Hk. lia.
  - change (seq a (S n)) with (a :: seq (S a) n).
    destruct (attempt_cases (up API_PRODUCTS (requests w))) as [Hf|[payload Hs]].
    + destruct (getAll_loop_failed up a (seq (S a) n) w Hf) as [e ->].
      cbv zeta.
      destruct (a <=? FETCH_RETRIES) eqn:Ha.
      * apply Nat.leb_le in Ha.
        set (w2 := sleep 2000 _).
        assert (Hr : requests w2 = S (requests w)) by reflexivity.
        assert (Hc : console w2 = [Retrying; GetAllError a e] ++ console w)
          by reflexivity.
        assert (Hw : waited w2 = (waited w + 2000)%N) by reflexivity.
        destruct (IH (S a) w2 ltac:(lia)) as (H3 & H4).
        rewrite Hr in *. split.
        -- intros Hall. destruct H3 as (new & E1 & E2 & E3 & E4).
           { intros i Hi. replace (S (requests w) + i) with (requests w + S i) by lia.
             apply Hall. lia. }
           exists (new ++ [Retrying; GetAllError a e]).
           rewrite E1, Hc, E4, Hw, errorLines_app, retryLines_app, E2, E3.
           unfold FETCH_RETRIES in *.
           repeat split;
             [now rewrite <- app_assoc|unfold errorLines; simpl; lia
             |unfold retryLines; simpl; lia|lia].
        -- intros k products Hk Hbefore Hat.
           destruct k as [|k].
           { rewrite Nat.add_0_r in Hat. destruct (failed_not_succeeded _ _ Hf Hat). }
           destruct (H4 k products) as (new & E1 & E2 & E3 & E4); try lia.
           { intros i Hi. replace (S (requests w) + i) with (requests w + S i) by lia.
             apply Hbefore. lia. }
           { replace (S (requests w) + k) with (requests w + S k) by lia. exact Hat. }
           exists (new ++ [Retrying; GetAllError a e]).
           rewrite E1, Hc, E4, Hw, errorLines_app, retryLines_app, E2, E3.
           repeat split;
             [now rewrite <- app_assoc|unfold errorLines; simpl; lia
             |unfold retryLines; simpl; lia|lia].
      * apply Nat.leb_gt in Ha. assert (n = 0) by lia. subst n. simpl. split.
        -- intros _. exists [GetAllError a e]. repeat split. simpl. lia.
        -- intros k products Hk Hbefore Hat.
           assert (k = 0) by lia. subst k.
           rewrite Nat.add_0_r in Hat. destruct (failed_not_succeeded _ _ Hf Hat).
    + rewrite (getAll_loop_succeeded up a (seq (S a) n) w payload Hs). simpl. split.
      * intros Hall. specialize (Hall 0 ltac:(lia)). rewrite Nat.add_0_r in Hall.
        destruct (failed_not_succeeded _ _ Hall Hs).
      * intros k products Hk Hbefore Hat. destruct k as [|k].
        -- exists []. repeat split. simpl. lia.
        -- specialize (Hbefore 0 ltac:(lia)). rewrite Nat.add_0_r in Hbefore.
           destruct (failed_not_succeeded _ _ Hbefore Hs).
Qed.

(** X1. [getAll] prints one error line per failed attempt and waits
    2000 ms after a failed attempt only when another one follows: when
    the first [k < 3] attempts fail and the next succeeds it prints [k]
    error lines and waits [2000 * k] ms; when all 3 fail it prints 3
    error lines and waits 4000 ms, not 6000.  It adds lines to the
    console and removes none. *)
Theorem getAll_waits_between_attempts (up : upstream (list Product.t)) (w : world) :
  ((forall i, i < 3 -> failed (up API_PRODUCTS (requests w + i))) ->
   exists new,
     console (snd (getAll up w)) = new ++ console w
     /\ errorLines new = 3 /\ retryLines new = 2
     /\ waited (snd (getAll up w)) = (waited w + 4000)%N)
  /\ (forall k products,
        k < 3 ->
        (forall i, i < k -> failed (up API_PRODUCTS (requests w + i))) ->
        succeeded (up API_PRODUCTS (requests w + k)) products ->
        exists new,
          console (snd (getAll up w)) = new ++ console w
          /\ errorLines new = k /\ retryLines new = k
          /\ waited (snd (getAll up w)) = (waited w + 2000 * N.of_nat k)%N).
Proof.
  exact (getAll_loop_effects up (FETCH_RETRIES + 1) 1 w eq_refl).
Qed.

Lemma getAll_waits_between_attempts_witness :
  waited (snd (getAll down idle)) = 4000%N
  /\ waited (snd (getAll flaky idle)) = 4000%N
  /\ errorLines (console (snd (getAll flaky idle))) = 2.
Proof.
  destruct (proj1 (getAll_waits_between_attempts down idle)) as (new & E1 & E2 & E3 & E4).
  { intros i Hi. destruct i as [|[|[|i]]]; simpl; eauto. }
  destruct (proj2 (getAll_waits_between_attempts flaky idle) 2 [shoe; hat])
    as (new' & F1 & F2 & F3 & F4).
  { lia. }
  { intros i Hi. destruct i as [|[|i]]; simpl; auto. lia. }
  { simpl. eexists. repeat split. }
  split; [exact E4|]. split; [exact F4|].
  rewrite F1, errorLines_app, F2. reflexivity.
Defined.

Lemma getAll_loop_local up up' attempts : forall w,
  (forall i, i < List.length attempts ->
             up API_PRODUCTS (requests w + i) = up' API_PRODUCTS (requests w + i)) ->
  getAll_loop up attempts w = getAll_loop up' attempts w.
Proof.
  induction attempts as [|attempt later IH]; intros w H; [reflexivity|].
  cbn [getAll_loop fetch]. cbv zeta.
  pose proof (H 0 ltac:(simpl; lia)) as H0. rewrite Nat.add_0_r in H0.
  rewrite H0.
  destruct (bind _ _) as [products|e]; [reflexivity|].
  destruct (attempt <=? FETCH_RETRIES); [|reflexivity].
  apply IH. intros i Hi. cbn [requests sleep print].
  replace (S (requests w) + i) with (requests w + S i) by lia.
  apply H. simpl. lia.
Qed.

(** X2. The fetcher asks for nothing but the products endpoint: what
    [getAll] returns and does is fixed by the outcomes of its (at most)
    three requests to [API_PRODUCTS], and what [getById] returns and
    does by the outcome of its one request to [API_PRODUCTS/id]. *)
Theorem fetcher_reads_one_endpoint :
  (forall (up up' : upstream (list Product.t)) w,
      (forall i, i < 3 ->
                 up API_PRODUCTS (requests w + i) = up' API_PRODUCTS (requests w + i)) ->
      getAll up w = getAll up' w)
  /\ (forall (up up' : upstream Product.t) id w,
        up (API_PRODUCTS ++ "/" ++ id)%string (requests w)
        = up' (API_PRODUCTS ++ "/" ++ id)%string (requests w) ->
        getById up id w = getById up' id w).
Proof.
  split.
  - intros up up' w H. apply getAll_loop_local. exact H.
  - intros up up' id w H. unfold getById, fetch. now rewrite H.
Qed.

Lemma fetcher_reads_one_endpoint_witness :
  getAll flaky idle
  = getAll (fun url n => if (url =? API_PRODUCTS)%string then flaky url n
                         else Throw AbortError) idle
  /\ getById catalogue "7" idle
     = getById (fun url n => if (url =? API_PRODUCTS ++ "/7")%string
                             then catalogue url n else Throw AbortError) "7" idle.
Proof.
  split.
  - apply (proj1 fetcher_reads_one_endpoint). intros i Hi. reflexivity.
  - apply (proj2 fetcher_reads_one_endpoint). reflexivity.
Defined.

Lemma cons_neq {A : Type} (x : A) (l : list A) : x :: l <> l.
Proof.
  intros H. apply (f_equal (@List.length A)) in H. simpl in H. lia.
Qed.

(** X3. [getById] prints a line exactly when it caught an exception: a
    rejected request, or a 2xx answer whose body does not parse.  It
    then prints one line, which carries the exception it caught.  An
    answer with another status is turned into [null] without a trace,
    and so is nothing else.  It never waits. *)
Theorem getById_logs_exceptions_only (up : upstream Product.t) (id : string)
  (w : world) :
  (forall e,
      up (API_PRODUCTS ++ "/" ++ id)%string (requests w) = Throw e ->
      console (snd (getById up id w)) = GetByIdError e :: console w)
  /\ (forall response e,
        up (API_PRODUCTS ++ "/" ++ id)%string (requests w) = Ok response ->
        Response.ok response = true -> Response.json response = Throw e ->
        console (snd (getById up id w)) = GetByIdError e :: console w)
  /\ (forall response,
        up (API_PRODUCTS ++ "/" ++ id)%string (requests w) = Ok response ->
        Response.ok response = false
        \/ (exists product, Response.json response = Ok product) ->
        console (snd (getById up id w)) = console w)
  /\ (console (snd (getById up id w)) = console w <->
      exists response,
        up (API_PRODUCTS ++ "/" ++ id)%string (requests w) = Ok response
        /\ (Response.ok response = false
            \/ exists product, Response.json response = Ok product))
  /\ waited (snd (getById up id w)) = waited w.
Proof.
  unfold getById, fetch.
  destruct (up (API_PRODUCTS ++ "/" ++ id)%string (requests w)) as [response|e];
    simpl;
    [destruct (Response.ok response) eqn:Hok; simpl;
     [destruct (Response.json response) as [product|e] eqn:Hjson; simpl|]|];
    repeat split; eauto; intros;
    try (exfalso; eapply cons_neq; eassumption);
    outcome_cases.
Qed.

Lemma getById_logs_exceptions_only_witness :
  console (snd (getById (fun _ _ => Throw AbortError) "7" idle))
  = [GetByIdError AbortError]
  /\ console (snd (getById
                     (fun _ _ =>
                        Ok (Response.mk true 200 "OK"
                              (Throw (SyntaxError "Unexpected end of JSON input"))))
                     "7" idle))
     = [GetByIdError (SyntaxError "Unexpected end of JSON input")]
  /\ console (snd (getById catalogue "8" idle)) = []
  /\ console (snd (getById catalogue "7" idle)) = [].
Proof.
  split; [|split; [|split]].
  - apply (proj1 (getById_logs_exceptions_only
                    (fun _ _ => Throw AbortError) "7" idle) AbortError).
    reflexivity.
  - apply (proj1 (proj2 (getById_logs_exceptions_only
                           (fun _ _ =>
                              Ok (Response.mk true 200 "OK"
                                    (Throw (SyntaxError "Unexpected end of JSON input"))))
                           "7" idle))
             (Response.mk true 200 "OK"
                (Throw (SyntaxError "Unexpected end of JSON input")))
             (SyntaxError "Unexpected end of JSON input"));
      reflexivity.
  - apply (proj1 (proj2 (proj2 (getById_logs_exceptions_only catalogue "8" idle)))
             (Response.mk false 400 "Bad Request" (Throw (SyntaxError "no body")))).
    + reflexivity.
    + left. reflexivity.
  - apply (proj1 (proj2 (proj2 (getById_logs_exceptions_only catalogue "7" idle)))
             (Response.mk true 200 "OK" (Ok hat))).
    + reflexivity.
    + right. eexists. reflexivity.
Defined.

(** * Properties of the list handlers *)

Lemma getAll_returns up w : exists l, fst (getAll up w) = Ok l.
Proof. exact (proj1 (getAll_loop_spec up (FETCH_RETRIES + 1) 1 w eq_refl)). Qed.

Lemma Subseq_nil_r {A : Type} (r : list A) : Subseq r [] -> r = [].
Proof. now inversion 1. Qed.

Lemma filterProducts_blank l q :
  blank (Query.title q) -> blank (Query.slug q) ->
  blank (Query.minPrice q) -> blank (Query.maxPrice q) ->
  filterProducts l q = Ok l.
Proof.
  intros Ht Hs Hmin Hmax. rewrite filterProducts_passes.
  rewrite titlePass_blank by assumption. simpl.
  rewrite slugPass_blank by assumption. simpl.
  rewrite minPricePass_blank by assumption. simpl.
  now apply maxPricePass_blank.
Qed.

Lemma filterProducts_nil q :
  absentOrText (Query.title q) -> absentOrText (Query.slug q) ->
  filterProducts [] q = Ok [].
Proof.
  intros Ht Hs.
  destruct (filterProducts_completes [] q (Forall_nil _) Ht Hs) as [r Hr].
  rewrite Hr. f_equal.
  apply Subseq_nil_r. apply (filterProducts_narrowing q [] r Hr).
Qed.



(** X5. The client cannot tell an upstream that fails three times from
    an empty catalogue: in both cases the list handler answers 200 with
    the empty list, whatever the (string-valued) query. *)
Theorem listProducts_down_is_empty (up up' : upstream (list Product.t))
  (q : Query.t) (w : world) :
  (forall i, i < 3 -> failed (up API_PRODUCTS (requests w + i))) ->
  succeeded (up' API_PRODUCTS (requests w)) [] ->
  absentOrText (Query.title q) -> absentOrText (Query.slug q) ->
  fst (listProducts up q w) = Some (mkListing 200 [])
  /\ fst (listProducts up' q w) = Some (mkListing 200 []).
Proof.
  intros Hdown Hempty Ht Hs.
  destruct (getAll_loop_spec up (FETCH_RETRIES + 1) 1 w eq_refl)
    as (_ & _ & Hall & _).
  destruct (getAll_loop_spec up' (FETCH_RETRIES + 1) 1 w eq_refl)
    as (_ & _ & _ & Hk).
  destruct (Hall Hdown) as [E _].
  destruct (Hk 0 [] ltac:(unfold FETCH_RETRIES; lia) ltac:(intros; lia)
              ltac:(now rewrite Nat.add_0_r)) as [E' _].
  fold (getAll up w) in E. fold (getAll up' w) in E'.
  unfold listProducts.
  destruct (getAll up w) as [got w1]. destruct (getAll up' w) as [got' w1'].
  simpl in E, E'. subst got got'.
  rewrite (filterProducts_nil q Ht Hs). auto.
Qed.

Lemma listProducts_down_is_empty_witness :
  fst (listProducts down (Query.mk (VStr "hat") VUndefined VUndefined (VStr "9")) idle)
  = Some (mkListing 200 [])
  /\ fst (listProducts (fun _ _ => Ok (Response.mk true 200 "OK" (Ok [])))
            (Query.mk (VStr "hat") VUndefined VUndefined (VStr "9")) idle)
     = Some (mkListing 200 []).
Proof.
  apply (listProducts_down_is_empty down
           (fun _ _ => Ok (Response.mk true 200 "OK" (Ok [])))
           (Query.mk (VStr "hat") VUndefined VUndefined (VStr "9")) idle).
  - intros i Hi. destruct i as [|[|[|i]]]; simpl; eauto.
  - eexists. repeat split.
  - exact I.
  - exact I.
Defined.

(** X6. For an upstream whose 2xx bodies parse to arrays of records
    (the bodies of this model), the list handler of the dashboard
    server always answers 200, with the products [getAll] returned, and
    the handler of the product server does the same, answer and
    effects, when every field of the query is absent or blank. *)
Theorem allProducts_is_unfiltered_list (up : upstream (list Product.t)) (w : world) :
  (exists l,
      fst (getAll up w) = Ok l
      /\ fst (allProducts up w) = Some (mkListing 200 l))
  /\ (forall q,
        blank (Query.title q) -> blank (Query.slug q) ->
        blank (Query.minPrice q) -> blank (Query.maxPrice q) ->
        listProducts up q w = allProducts up w).
Proof.
  destruct (getAll_returns up w) as [l Hl].
  unfold listProducts, allProducts.
  destruct (getAll up w) as [got w']. simpl in Hl. subst got. split.
  - exists l. auto.
  - intros q Ht Hs Hmin Hmax.
    now rewrite (filterProducts_blank l q Ht Hs Hmin Hmax).
Qed.

Lemma allProducts_is_unfiltered_list_witness :
  listProducts flaky (Query.mk (VStr " ") VUndefined (VStr "") VUndefined) idle
  = allProducts flaky idle.
Proof.
  apply (proj2 (allProducts_is_unfiltered_list flaky idle)
           (Query.mk (VStr " ") VUndefined (VStr "") VUndefined)).
  - reflexivity.
  - exact I.
  - reflexivity.
  - exact I.
Defined.

(** * Further properties of the filter *)

(** ** When it throws *)

Lemma Array_filter_throws {A : Type} (f : A -> completion bool) l :
  (exists e, Array_filter f l = Throw e) <->
  Exists (fun x => exists e, f x = Throw e) l.
Proof.
  induction l as [|x l IH]; simpl.
  - split; [intros [e H]; discriminate|inversion 1].
  - destruct (f x) as [keep|e] eqn:Hx; simpl.
    + destruct (Array_filter f l) as [rest|e]; simpl.
      * split; [intros [e H]; discriminate|].
        inversion 1 as [? ? [e H1]|? ? H1]; subst; [congruence|].
        apply IH in H1. destruct H1; discriminate.
      * split; [intros _; apply Exists_cons_tl, IH; eauto|eauto].
    + split; [intros _; apply Exists_cons_hd; eauto|eauto].
Qed.

Lemma Array_filter_TypeError {A : Type} (f : A -> completion bool) l e :
  (forall x e', f x = Throw e' -> exists m, e' = TypeError m) ->
  Array_filter f l = Throw e -> exists m, e = TypeError m.
Proof.
  intros Hf. induction l as [|x l IH]; simpl; [discriminate|].
  destruct (f x) as [keep|e'] eqn:Hx; simpl.
  - destruct (Array_filter f l) as [rest|e'']; simpl; [discriminate|].
    intros H. inversion H; subst. auto.
  - intros H. inversion H; subst. eauto.
Qed.

Lemma guard_cases v :
  (truthyNonText v = true
   /\ exists m, call_trim v = Throw (TypeError m)
               /\ (if ToBoolean v
                   then t <- call_trim v ;; Ok (ToBoolean (VStr t))
                   else Ok false) = Throw (TypeError m))
  \/ (truthyNonText v = false
      /\ (if ToBoolean v
          then t <- call_trim v ;; Ok (ToBoolean (VStr t))
          else Ok false) = Ok (activeText v)).
Proof.
  destruct v as [| |b|n|s]; simpl; auto.
  - destruct b; simpl; eauto.
  - destruct (negb _); simpl; eauto.
  - right. split; auto. destruct s; reflexivity.
Qed.

Lemma titleCallback_throws p needle :
  (exists e,
      (s <- call_toLowerCase (or_else (Product.title p) (VStr "")) ;;
       Ok (JsString.includes s needle)) = Throw e) <->
  truthyNonText (Product.title p) = true.
Proof.
  unfold or_else.
  destruct (Product.title p) as [| |b|n|s]; simpl;
    try (split; [intros [e H]; discriminate|discriminate]).
  - destruct b; simpl; split; eauto; try discriminate. intros [e H]; discriminate.
  - destruct (negb _); simpl; split; eauto; try discriminate.
    intros [e H]; discriminate.
  - destruct (negb _); simpl; split; try discriminate; intros [e H]; discriminate.
Qed.

Lemma titleCallback_TypeError p needle e :
  (s <- call_toLowerCase (or_else (Product.title p) (VStr "")) ;;
   Ok (JsString.includes s needle)) = Throw e ->
  exists m, e = TypeError m.
Proof.
  unfold or_else.
  destruct (Product.title p) as [| |b|n|s]; simpl; try discriminate.
  - destruct b; simpl; intros H; inversion H; eauto.
  - destruct (negb _); simpl; intros H; inversion H; eauto.
  - destruct (negb _); simpl; discriminate.
Qed.

Lemma titlePass_throws q l :
  (exists e, titlePass q l = Throw e) <->
  truthyNonText (Query.title q) = true
  \/ (titleActive q = true
      /\ Exists (fun p => truthyNonText (Product.title p) = true) l).
Proof.
  unfold titlePass, titleActive.
  destruct (guard_cases (Query.title q)) as [(Hb & m & Ht & ->)|(Hb & ->)]; simpl.
  - split; eauto.
  - rewrite Hb.
    destruct (Query.title q) as [| |b|n|s] eqn:Hq; simpl in *;
      try (split; [intros [e H]; discriminate|intros [H|[H _]]; discriminate]).
    destruct (negb (JsString.trim s =? "")%string); simpl.
    + rewrite Array_filter_throws. split.
      * intros H. right. split; auto.
        eapply Exists_impl; [|exact H]. intros p. apply titleCallback_throws.
      * intros [H|[_ H]]; [discriminate|].
        eapply Exists_impl; [|exact H]. intros p. apply titleCallback_throws.
    + split; [intros [e H]; discriminate|intros [H|[H _]]; discriminate].
Qed.

Lemma titlePass_TypeError q l e : titlePass q l = Throw e -> exists m, e = TypeError m.
Proof.
  unfold titlePass.
  destruct (guard_cases (Query.title q)) as [(Hb & m & Ht & ->)|(Hb & ->)]; simpl.
  - intros H. inversion H. eauto.
  - destruct (Query.title q) as [| |b|n|s]; simpl in *; try discriminate.
    destruct (negb _); simpl; [|discriminate].
    apply Array_filter_TypeError. intros p e'. apply titleCallback_TypeError.
Qed.

Lemma slugPass_throws q l :
  (exists e, slugPass q l = Throw e) <-> truthyNonText (Query.slug q) = true.
Proof.
  unfold slugPass.
  destruct (guard_cases (Query.slug q)) as [(Hb & m & Ht & ->)|(Hb & ->)]; simpl.
  - split; eauto.
  - rewrite Hb.
    destruct (Query.slug q) as [| |b|n|s]; simpl in *;
      try (split; [intros [e H]; discriminate|discriminate]).
    destruct (negb _); simpl; [rewrite Array_filter_pure|];
      (split; [intros [e H]; discriminate|discriminate]).
Qed.

Lemma slugPass_TypeError q l e : slugPass q l = Throw e -> exists m, e = TypeError m.
Proof.
  unfold slugPass.
  destruct (guard_cases (Query.slug q)) as [(Hb & m & Ht & ->)|(Hb & ->)]; simpl.
  - intros H. inversion H. eauto.
  - destruct (Query.slug q) as [| |b|n|s]; simpl in *; try discriminate.
    destruct (negb _); simpl; [rewrite Array_filter_pure|]; discriminate.
Qed.

(** X7. On a list of record objects whose fields, like those of the
    query, hold primitive values (the lists and queries of this model),
    [filterProducts] throws exactly in three cases: the [title] of the
    query is a value other than a string that counts as true; the title
    constraint is in force and some record of the list has such a
    title; the [slug] of the query is such a value.  What it throws is
    always a [TypeError]. *)
Theorem filterProducts_raises_exactly (l : list Product.t) (q : Query.t) :
  ((exists e, filterProducts l q = Throw e) <->
   truthyNonText (Query.title q) = true
   \/ (titleActive q = true
       /\ Exists (fun p => truthyNonText (Product.title p) = true) l)
   \/ truthyNonText (Query.slug q) = true)
  /\ (forall e, filterProducts l q = Throw e -> exists m, e = TypeError m).
Proof.
  rewrite filterProducts_passes.
  pose proof (titlePass_throws q l) as Ht.
  destruct (titlePass q l) as [r1|e1] eqn:H1; simpl.
  - pose proof (slugPass_throws q r1) as Hs.
    destruct (slugPass q r1) as [r2|e2] eqn:H2; simpl.
    + destruct (minPricePass_completes q r2) as [r3 ->]. simpl.
      destruct (maxPricePass_completes q r3) as [r4 ->].
      split; [|discriminate]. split; [intros [e H]; discriminate|].
      intros [H|[H|H]].
      * destruct (proj2 Ht (or_introl H)); discriminate.
      * destruct (proj2 Ht (or_intror H)); discriminate.
      * destruct (proj2 Hs H); discriminate.
    + split.
      * split; eauto. intros _. right. right. apply Hs. eauto.
      * intros e H. inversion H; subst. eapply slugPass_TypeError; eauto.
  - split.
    + split; eauto. intros _. destruct (proj1 Ht) as [H|H]; eauto.
    + intros e H. inversion H; subst. eapply titlePass_TypeError; eauto.
Qed.

Lemma filterProducts_raises_exactly_witness :
  (exists e,
      filterProducts [shoe; Product.mk (VBool true) VUndefined VUndefined []]
        (Query.mk (VStr "s") VUndefined VUndefined VUndefined) = Throw e)
  /\ (exists e, filterProducts [] (Query.mk VUndefined (num 7) VUndefined VUndefined)
                = Throw e).
Proof.
  split.
  - apply (proj1 (filterProducts_raises_exactly
                    [shoe; Product.mk (VBool true) VUndefined VUndefined []]
                    (Query.mk (VStr "s") VUndefined VUndefined VUndefined))).
    right. left. split; [reflexivity|].
    apply Exists_cons_tl, Exists_cons_hd. reflexivity.
  - apply (proj1 (filterProducts_raises_exactly []
                    (Query.mk VUndefined (num 7) VUndefined VUndefined))).
    right. right. reflexivity.
Defined.

(** ** The slug constraint *)






(** ** Every record is judged on its own *)

Lemma Array_filter_app {A : Type} (f : A -> completion bool) l1 l2 :
  Array_filter f (l1 ++ l2) =
  (r1 <- Array_filter f l1 ;; r2 <- Array_filter f l2 ;; Ok (r1 ++ r2)).
Proof.
  induction l1 as [|x l1 IH]; simpl.
  - now rewrite bind_ret.
  - destruct (f x) as [keep|e]; simpl; [|reflexivity].
    rewrite IH. destruct (Array_filter f l1) as [r1|e]; simpl; [|reflexivity].
    destruct (Array_filter f l2) as [r2|e]; simpl; [|reflexivity].
    destruct keep; reflexivity.
Qed.

Section Additive.
Context {A : Type}.
Implicit Types (F G : list A -> completion (list A)).

Lemma additive_filter (f : A -> completion bool) : additive (Array_filter f).
Proof.
  intros l1 l2 r. rewrite Array_filter_app.
  destruct (Array_filter f l1) as [r1|e1]; simpl.
  - destruct (Array_filter f l2) as [r2|e2]; simpl.
    + split.
      * intros H. inversion H. eauto.
      * intros (r1' & r2' & H1 & H2 & ->). congruence.
    + split; [discriminate|]. intros (r1' & r2' & _ & H2 & _). discriminate.
  - split; [discriminate|]. intros (r1' & r2' & H1 & _). discriminate.
Qed.

Lemma additive_id : additive (fun l : list A => Ok l).
Proof.
  intros l1 l2 r. split.
  - intros H. inversion H. eauto.
  - intros (r1 & r2 & H1 & H2 & ->). congruence.
Qed.

Lemma additive_seq F G :
  additive F -> additive G -> additive (fun l => bind (F l) G).
Proof.
  intros HF HG l1 l2 r. split.
  - intros H. destruct (F (l1 ++ l2)) as [m|] eqn:Hm; simpl in H; try discriminate.
    apply HF in Hm. destruct Hm as (m1 & m2 & H1 & H2 & ->).
    apply HG in H. destruct H as (r1 & r2 & G1 & G2 & ->).
    exists r1, r2. rewrite H1, H2. auto.
  - intros (r1 & r2 & H1 & H2 & ->).
    destruct (F l1) as [m1|] eqn:Hm1; simpl in H1; try discriminate.
    destruct (F l2) as [m2|] eqn:Hm2; simpl in H2; try discriminate.
    rewrite (proj2 (HF l1 l2 (m1 ++ m2))) by eauto. simpl.
    apply HG. eauto.
Qed.

Lemma additive_guard {B : Type} (c : completion B)
  (F : B -> list A -> completion (list A)) :
  (forall b, additive (F b)) -> additive (fun l => bind c (fun b => F b l)).
Proof.
  intros HF l1 l2 r. destruct c as [b|e]; simpl; [apply HF|].
  split; [discriminate|]. intros (r1 & r2 & H & _). discriminate.
Qed.

Lemma additive_if (c : bool) F G :
  additive F -> additive G -> additive (fun l => if c then F l else G l).
Proof. destruct c; auto. Qed.

Lemma additive_ext F G : (forall l, F l = G l) -> additive G -> additive F.
Proof. intros E HG l1 l2 r. rewrite !E. apply HG. Qed.
End Additive.

Lemma filterProducts_additive q : additive (fun l => filterProducts l q).
Proof.
  eapply additive_ext; [intros l; apply filterProducts_passes|].
  apply additive_seq.
  { unfold titlePass. apply additive_guard. intros b. apply additive_if.
    - apply additive_guard. intros t. apply additive_filter.
    - apply additive_id. }
  apply additive_seq.
  { unfold slugPass. apply additive_guard. intros b. apply additive_if.
    - apply additive_guard. intros t. apply additive_filter.
    - apply additive_id. }
  apply additive_seq.
  { unfold minPricePass. apply additive_if; [apply additive_if|];
      auto using additive_filter, additive_id. }
  unfold maxPricePass. apply additive_if; [apply additive_if|];
    auto using additive_filter, additive_id.
Qed.

Lemma Subseq_one {A : Type} (r : list A) x : Subseq r [x] -> r = [] \/ r = [x].
Proof.
  inversion 1 as [|? ? ? H1|? ? ? H1]; subst;
    apply Subseq_nil_r in H1; subst; auto.
Qed.

Lemma filterProducts_kept_alone q : forall l r,
  filterProducts l q = Ok r ->
  forall p, In p r <-> In p l /\ filterProducts [p] q = Ok [p].
Proof.
  induction l as [|x l IH]; intros r Hr p.
  - apply (filterProducts_narrowing q) in Hr. destruct Hr as [Hr _].
    apply Subseq_nil_r in Hr. subst. simpl. tauto.
  - apply (proj1 (filterProducts_additive q [x] l r)) in Hr.
    destruct Hr as (r1 & r2 & H1 & H2 & ->).
    specialize (IH r2 H2 p).
    pose proof (proj1 (filterProducts_narrowing q [x] r1 H1)) as Hsub.
    apply Subseq_one in Hsub.
    rewrite in_app_iff, IH. simpl. split.
    + intros [Hin|[Hin Hp]]; [|auto].
      destruct Hsub as [->| ->]; [destruct Hin|].
      destruct Hin as [->|[]]. auto.
    + intros [[->|Hin] Hp]; [|auto].
      left. rewrite Hp in H1. inversion H1. simpl. auto.
Qed.

(** X9. [filterProducts] judges every record on its own.  It returns on
    a concatenation exactly when it returns on both parts, and then
    with the concatenation of the two results; and a record is in the
    result exactly when it is in the input and the filter, given that
    record alone, keeps it. *)
Theorem filterProducts_pointwise (q : Query.t) :
  (forall l1 l2 r,
      filterProducts (l1 ++ l2) q = Ok r <->
      exists r1 r2,
        filterProducts l1 q = Ok r1 /\ filterProducts l2 q = Ok r2
        /\ r = r1 ++ r2)
  /\ (forall l r,
        filterProducts l q = Ok r ->
        forall p, In p r <-> In p l /\ filterProducts [p] q = Ok [p]).
Proof.
  split.
  - apply (filterProducts_additive q).
  - apply filterProducts_kept_alone.
Qed.

Lemma filterProducts_pointwise_witness :
  filterProducts ([shoe; hat] ++ [hat; shoe])
    (Query.mk VUndefined VUndefined (VStr "20") VUndefined)
  = Ok ([hat] ++ [hat])
  /\ In hat [hat].
Proof.
  split.
  - apply (proj1 (filterProducts_pointwise
                    (Query.mk VUndefined VUndefined (VStr "20") VUndefined))
             [shoe; hat] [hat; shoe] ([hat] ++ [hat])).
    exists [hat], [hat]. repeat split; vm_compute; reflexivity.
  - apply (proj2 (filterProducts_pointwise
                    (Query.mk VUndefined VUndefined (VStr "20") VUndefined))
             [shoe; hat] [hat]).
    + vm_compute. reflexivity.
    + split; [simpl; auto|vm_compute; reflexivity].
Defined.

(** ** Constraints narrow, in any order *)















(** ** Price windows *)

Lemma filterProducts_bounds l q :
  filterProducts l q =
  (r <- filterProducts l
          (Query.mk (Query.title q) (Query.slug q) VUndefined VUndefined) ;;
   Ok (filter (inBounds (bound (Query.minPrice q)) (bound (Query.maxPrice q))) r)).
Proof.
  rewrite !filterProducts_passes.
  change (titlePass (Query.mk _ _ _ _) l) with (titlePass q l).
  destruct (titlePass q l) as [r1|]; simpl; [|reflexivity].
  change (slugPass (Query.mk _ _ _ _) r1) with (slugPass q r1).
  destruct (slugPass q r1) as [r2|]; simpl; [|reflexivity].
  rewrite minPricePass_bound. simpl. rewrite maxPricePass_bound.
  unfold inBounds. now rewrite filter_both.
Qed.






Lemma le_NaN_r m : Number.le m Number.NaN = false.
Proof. destruct m; reflexivity. Qed.

Lemma le_NaN_l m : Number.le Number.NaN m = false.
Proof. destruct m; reflexivity. Qed.

(** X13. A record whose price does not convert to a number (a string
    that is no numeric literal, for one) is dropped as soon as one
    price constraint is numeric, whatever the bound. *)
Theorem filterProducts_drops_unpriced (l r : list Product.t) (q : Query.t)
  (p : Product.t) :
  recordPrice p = Number.NaN ->
  bound (Query.minPrice q) <> None \/ bound (Query.maxPrice q) <> None ->
  filterProducts l q = Ok r -> ~ In p r.
Proof.
  intros Hp Hb. rewrite filterProducts_bounds.
  destruct (filterProducts l _) as [r0|]; simpl; [|discriminate].
  intros H Hin. inversion H; subst r; clear H.
  apply filter_In in Hin. destruct Hin as [_ Hin].
  unfold inBounds in Hin. rewrite Hp in Hin.
  destruct (bound (Query.minPrice q)) as [lo|].
  - now rewrite le_NaN_r in Hin.
  - destruct (bound (Query.maxPrice q)) as [hi|].
    + now rewrite le_NaN_l in Hin.
    + destruct Hb as [Hb|Hb]; now apply Hb.
Qed.

Lemma filterProducts_drops_unpriced_witness :
  ~ In (Product.mk (VStr "Bag") VUndefined (VStr "on request") []) [shoe].
Proof.
  apply (filterProducts_drops_unpriced
           [Product.mk (VStr "Bag") VUndefined (VStr "on request") []; shoe]
           [shoe]
           (Query.mk VUndefined VUndefined VUndefined (VStr "1e9"))).
  - vm_compute. reflexivity.
  - right. vm_compute. discriminate.
  - vm_compute. reflexivity.
Defined.

(** * Further properties of the filter over the store *)

Lemma read_alloc h c : Store.read (h ++ [c]) (List.length h) = Some c.
Proof.
  unfold Store.read. rewrite nth_error_app2 by lia. now rewrite Nat.sub_diag.
Qed.

Lemma select_Subseq h callback es : forall es',
  Store.select h callback es = Ok es' -> Subseq es' es.
Proof.
  induction es as [|a es IH]; simpl; intros es' H.
  - inversion H. constructor.
  - destruct (Store.record h a) as [p|]; simpl in H; try discriminate.
    destruct (callback p) as [keep|]; simpl in H; try discriminate.
    destruct (Store.select h callback es) as [rest|]; simpl in H; try discriminate.
    inversion H; subst. destruct keep; auto.
Qed.

Lemma shares_ret : shares Store.ret.
Proof. intros h a es H. simpl. eauto using Subseq_refl. Qed.

Lemma shares_spread : shares Store.spread.
Proof.
  intros h a es H. unfold Store.spread, Store.elements, Store.alloc.
  rewrite H. exists es. split; [apply read_alloc|apply Subseq_refl].
Qed.

Lemma shares_filter callback : shares (Store.filter callback).
Proof.
  intros h a es H. unfold Store.filter, Store.elements, Store.alloc.
  rewrite H. simpl.
  destruct (Store.select h callback es) as [es'|e] eqn:E; [|exact I].
  exists es'. split; [apply read_alloc|]. eapply select_Subseq; eauto.
Qed.

Lemma shares_seq m1 m2 :
  shares m1 -> shares m2 -> shares (fun a => Store.bind (m1 a) m2).
Proof.
  intros H1 H2 h a es H. unfold Store.bind. specialize (H1 h a es H).
  destruct (m1 a h) as [[a1|e] h1]; [|exact I].
  destruct H1 as (es1 & Hr1 & S1). specialize (H2 h1 a1 es1 Hr1).
  destruct (m2 a1 h1) as [[a2|e] h2]; [|exact I].
  destruct H2 as (es2 & Hr2 & S2). eauto using Subseq_trans.
Qed.

Lemma shares_guard {B : Type} (c : completion B)
  (m : B -> Store.loc -> Store.run Store.loc) :
  (forall b, shares (m b)) ->
  shares (fun a => Store.bind (Store.lift c) (fun b => m b a)).
Proof.
  intros H h a es Hr. unfold Store.bind, Store.lift.
  destruct c as [b|e]; simpl; [apply (H b h a es Hr)|exact I].
Qed.

Lemma shares_if (c : bool) m1 m2 :
  shares m1 -> shares m2 -> shares (fun a => if c then m1 a else m2 a).
Proof. destruct c; auto. Qed.

Lemma filterProducts_shares query :
  shares (fun products => Store.filterProducts products query).
Proof.
  unfold Store.filterProducts. cbv zeta.
  apply shares_seq; [apply shares_spread|].
  apply shares_guard; intros byTitle.
  apply shares_seq.
  { apply shares_if; [|apply shares_ret].
    apply shares_guard; intros t. apply shares_filter. }
  apply shares_guard; intros bySlug.
  apply shares_seq.
  { apply shares_if; [|apply shares_ret].
    apply shares_guard; intros t. apply shares_filter. }
  apply shares_seq.
  { apply shares_if; [apply shares_if|]; auto using shares_filter, shares_ret. }
  apply shares_seq.
  { apply shares_if; [apply shares_if|]; auto using shares_filter, shares_ret. }
  apply shares_ret.
Qed.

(** X14. The copy is shallow: the array [filterProducts] returns holds
    references taken, in order, from the input array, so the records of
    the result are the very records of the input, not copies of them. *)
Theorem filterProducts_shares_records (h : Store.heap) (products : Store.loc)
  (q : Query.t) (es : list Store.loc) (result : Store.loc) (h' : Store.heap) :
  Store.read h products = Some (Store.Arr es) ->
  Store.filterProducts products q h = (Ok result, h') ->
  exists es',
    Store.read h' result = Some (Store.Arr es')
    /\ Subseq es' es
    /\ (forall a, In a es' -> In a es /\ (forall c, Store.read h a = Some c ->
                                                    Store.read h' a = Some c)).
Proof.
  intros Hr Hrun.
  pose proof (filterProducts_shares q h products es Hr) as H.
  pose proof (filterProducts_allocates products q h) as Hext.
  cbv beta in H. rewrite Hrun in H, Hext. simpl in Hext.
  destruct H as (es' & Hr' & Hsub). exists es'. repeat split; auto.
  - eapply Subseq_In; eauto.
  - intros c. now apply read_extends.
Qed.

Lemma filterProducts_shares_records_witness :
  exists es',
    Store.read
      (snd (Store.filterProducts 2
              (Query.mk VUndefined VUndefined (VStr "20") VUndefined) shelf))
      4 = Some (Store.Arr es')
    /\ Subseq es' [0; 1].
Proof.
  destruct (filterProducts_shares_records shelf 2
              (Query.mk VUndefined VUndefined (VStr "20") VUndefined) [0; 1]
              4
              (snd (Store.filterProducts 2
                      (Query.mk VUndefined VUndefined (VStr "20") VUndefined) shelf)))
    as (es' & H1 & H2 & _).
  - reflexivity.
  - vm_compute. reflexivity.
  - exists es'. auto.
Defined.

(** * One wait between two requests *)

Lemma getAll_loop_paced up n : forall a w,
  a + S n = FETCH_RETRIES + 2 ->
  requests w < requests (snd (getAll_loop up (seq a (S n)) w))
  /\ waited (snd (getAll_loop up (seq a (S n)) w))
     = (waited w
        + 2000 * N.of_nat (requests (snd (getAll_loop up (seq a (S n)) w))
                           - requests w - 1))%N.
Proof.
  induction n as [|n IH]; intros a w Han;
    [change (seq a 1) with [a]
    |change (seq a (S (S n))) with (a :: seq (S a) (S n))];
    destruct (attempt_cases (up API_PRODUCTS (requests w))) as [Hf|[payload Hs]].
  - destruct (getAll_loop_failed up a [] w Hf) as [e ->]. cbv zeta.
    unfold FETCH_RETRIES in *. destruct (a <=? 2) eqn:Ha.
    + apply Nat.leb_le in Ha. lia.
    + cbn [snd requests waited print].
      split; [lia|]. replace (S (requests w) - requests w - 1) with 0 by lia.
      lia.
  - rewrite (getAll_loop_succeeded up a [] w payload Hs).
    cbn [snd requests waited].
    split; [lia|]. replace (S (requests w) - requests w - 1) with 0 by lia. lia.
  - destruct (getAll_loop_failed up a (seq (S a) (S n)) w Hf) as [e ->]. cbv zeta.
    unfold FETCH_RETRIES in *. destruct (a <=? 2) eqn:Ha.
    + set (w2 := sleep 2000 _).
      assert (Hr : requests w2 = S (requests w)) by reflexivity.
      assert (Hw : waited w2 = (waited w + 2000)%N) by reflexivity.
      destruct (IH (S a) w2 ltac:(lia)) as [H1 H2].
      rewrite Hr in *. split; [lia|]. rewrite H2, Hw. lia.
    + apply Nat.leb_gt in Ha. lia.
  - rewrite (getAll_loop_succeeded up a (seq (S a) (S n)) w payload Hs).
    cbn [snd requests waited].
    split; [lia|]. replace (S (requests w) - requests w - 1) with 0 by lia. lia.
Qed.

(** X15. Whatever the upstream does, [getAll] sends at least one
    request and waits 2000 ms exactly once between two consecutive
    requests: the time it has waited is 2000 ms times one less than the
    number of requests it has sent. *)
Theorem getAll_one_wait_between_requests (up : upstream (list Product.t))
  (w : world) :
  requests w < requests (snd (getAll up w))
  /\ waited (snd (getAll up w))
     = (waited w
        + 2000 * N.of_nat (requests (snd (getAll up w)) - requests w - 1))%N.
Proof. exact (getAll_loop_paced up FETCH_RETRIES 1 w eq_refl). Qed.
